(** * delfos backend: the [/predictions] endpoint

    A shallow embedding of [get_predictions] and of its local helper
    [get_player_id_fuzzy] (delfos/backend/main.py), with the pandas and
    rapidfuzz operations they call.

    Conventions.
    - Python [str] values are Rocq strings; comparison is by code point.
    - rapidfuzz scores are Python floats; they are embedded as exact
      rationals ([Q]).  Every score is [norm_sim * 100] with [norm_sim] in
      [0,1], and the only tests the code makes on a score are [>= 80] and the
      library's [== 100].
    - [None] and [nan] are one null cell, [NaN]: [pd.isna] and rapidfuzz's
      [is_none] do not distinguish them.
    - A number cell [Num z] is an integer of an int64 column or an integral
      value of a float64 column; storing an integer in a float64 column
      rounds it to the nearest float64.
    - A CSV file is identified with the frame [pd.read_csv] parses from it,
      and [to_csv] with storing the frame. *)

From Stdlib Require Import Ascii String QArith Lqa.
From stdpp Require Import gmap strings list sorting.

Local Open Scope string_scope.
Local Open Scope list_scope.

(** ** Python strings *)

Module Str.

(** The characters the scorer takes as token separators in a string of
    one-byte characters: the ASCII white space.  (The code points 133 and
    160, white space for [str.isspace], do not separate tokens there.) *)
Definition is_space (c : ascii) : bool :=
  match c with
  | "009" | "010" | "011" | "012" | "013"
  | "028" | "029" | "030" | "031" | " " => true
  | _ => false
  end%char.

(** The tokens of [s]: the maximal runs of non-separator characters, in
    order. *)
Fixpoint split (s : string) : list string :=
  match s with
  | EmptyString => []
  | String c rest =>
      if is_space c then split rest
      else match rest with
           | EmptyString => [String c EmptyString]
           | String c' _ =>
               if is_space c' then String c EmptyString :: split rest
               else match split rest with
                    | tok :: toks => String c tok :: toks
                    | [] => [String c EmptyString]
                    end
           end
  end.

(** [sep.join(l)] *)
Fixpoint join (sep : string) (l : list string) : string :=
  match l with
  | [] => EmptyString
  | [x] => x
  | x :: rest => x +:+ sep +:+ join sep rest
  end.

(** [sorted(l)] on strings. *)
Definition sorted (l : list string) : list string := merge_sort String.le l.

Definition chars (s : string) : list ascii := list_ascii_of_string s.

End Str.

(** ** rapidfuzz *)

Module RapidFuzz.

(** Length of a longest common subsequence. *)
Fixpoint lcs_seq_similarity (s1 : list ascii) : list ascii → nat :=
  fix inner (s2 : list ascii) : nat :=
    match s1, s2 with
    | [], _ | _, [] => 0%nat
    | x :: s1', y :: s2' =>
        if decide (x = y) then S (lcs_seq_similarity s1' s2')
        else Nat.max (lcs_seq_similarity s1' s2) (inner s2')
    end.

(** [Indel.distance]: insertions and deletions needed to turn one string
    into the other. *)
Definition indel_distance (s1 s2 : list ascii) : nat :=
  (length s1 + length s2) - 2 * lcs_seq_similarity s1 s2.

Definition indel_normalized_distance (s1 s2 : list ascii) : Q :=
  let maximum := (length s1 + length s2)%nat in
  if (maximum =? 0)%nat then 0%Q
  else (Z.of_nat (indel_distance s1 s2) # Pos.of_nat maximum)%Q.

(** A scorer called with [score_cutoff] reports 0 for a score below it. *)
Definition with_cutoff (sim score_cutoff : Q) : Q :=
  if Qle_bool score_cutoff sim then sim else 0%Q.

Definition indel_normalized_similarity (s1 s2 : list ascii) (score_cutoff : Q) : Q :=
  with_cutoff (1 - indel_normalized_distance s1 s2)%Q score_cutoff.

(** [fuzz.ratio] *)
Definition ratio (s1 s2 : string) (score_cutoff : Q) : Q :=
  (indel_normalized_similarity (Str.chars s1) (Str.chars s2) (score_cutoff / 100)
   * 100)%Q.

(** Modelled from the spec: the similarity scorer, rapidfuzz's
    [fuzz.token_sort_ratio], is a library function whose code is not part
    of the repository.  Section 4.1 of the specification: both strings are
    tokenised on whitespace, each is reordered to a canonical token order,
    and the reordered strings are compared, giving a number in [0,100].
    The canonical order is the sorted one and the comparison is
    [fuzz.ratio], as the library documents. *)
Definition token_sort_ratio (s1 s2 : string) (score_cutoff : Q) : Q :=
  let sorted_s1 := Str.join " " (Str.sorted (Str.split s1)) in
  let sorted_s2 := Str.join " " (Str.sorted (Str.split s2)) in
  ratio sorted_s1 sorted_s2 score_cutoff.

(** The score the spec calls [score(a, b)]: no cutoff. *)
Definition score (a b : string) : Q := token_sort_ratio a b 0.

(** The similarity of the sorted strings before scaling and cutoff. *)
Definition norm_sim (a b : string) : Q :=
  let sa := Str.chars (Str.join " " (Str.sorted (Str.split a))) in
  let sb := Str.chars (Str.join " " (Str.sorted (Str.split b))) in
  (1 - indel_normalized_distance sa sb)%Q.

End RapidFuzz.

(** ** Values, exceptions and the world *)

(** A cell of a frame: null, text, or a number. *)
Inductive cell : Type :=
  | NaN
  | Str (s : string)
  | Num (z : Z).

#[global] Instance cell_eq_dec : EqDecision cell.
Proof. solve_decision. Defined.

(** [pd.isna(x)] / rapidfuzz's [is_none(x)] *)
Definition isna (x : cell) : bool :=
  match x with NaN => true | _ => false end.

Inductive exn : Type :=
  | HTTPException (status_code : Z) (detail : string)
  | KeyError (key : cell)
  | TypeError
  | FileNotFoundError (path : string).

(** A [pandas.DataFrame] with a range index of [index] rows: the columns in
    order, each with its label and values.  [pd.read_csv] gives distinct
    labels and [index] values per column. *)
Record DataFrame : Type := {
  index : nat;
  columns : list (string * list cell)
}.

(** The files on disk, and the record of the scorer's invocations
    [(query, choice)], oldest first. *)
Record World : Type := {
  files : gmap string DataFrame;
  scorer_calls : list (string * string)
}.

(** Computations that read and change the world and may raise. *)
Definition M (A : Type) : Type := World → (exn + A) * World.

#[global] Instance M_ret : MRet M := λ A x w, (inr x, w).
#[global] Instance M_bind : MBind M := λ A B f m w,
  match m w with
  | (inl e, w') => (inl e, w')
  | (inr x, w') => f x w'
  end.

Definition raise {A} (e : exn) : M A := λ w, (inl e, w).

(** ** Python dicts: insertion-ordered, keys unique *)

Module Dict.
Section dict.
Context {K V : Type} `{EqDecision K}.

Definition t : Type := list (K * V).

(** [d[k] = v]: an existing key keeps its place, a new one goes last. *)
Fixpoint setitem (d : t) (k : K) (v : V) : t :=
  match d with
  | [] => [(k, v)]
  | (k', v') :: d' =>
      if decide (k' = k) then (k', v) :: d' else (k', v') :: setitem d' k v
  end.

(** [dict(pairs)] *)
Definition of_pairs (pairs : list (K * V)) : t :=
  fold_left (λ d kv, setitem d kv.1 kv.2) pairs [].

(** [d.keys()] *)
Definition keys (d : t) : list K := d.*1.

Fixpoint get (d : t) (k : K) : option V :=
  match d with
  | [] => None
  | (k', v') :: d' => if decide (k' = k) then Some v' else get d' k
  end.
End dict.
Arguments t : clear implicits.
End Dict.

(** [d[k]] raises [KeyError] for a missing key. *)
Definition dict_getitem (d : Dict.t cell cell) (k : cell) : M cell :=
  match Dict.get d k with
  | Some v => mret v
  | None => raise (KeyError k)
  end.

(** ** pandas *)

Module Pandas.

(** [os.path.exists(path)] *)
Definition path_exists (path : string) : M bool :=
  λ w, (inr (bool_decide (is_Some (files w !! path))), w).

(** [pd.read_csv(path)] *)
Definition read_csv (path : string) : M DataFrame :=
  λ w, match files w !! path with
       | Some df => (inr df, w)
       | None => (inl (FileNotFoundError path), w)
       end.

(** [df.to_csv(path, index=False)] *)
Definition to_csv (df : DataFrame) (path : string) : M unit :=
  λ w, (inr tt, {| files := <[path := df]> (files w);
                   scorer_calls := scorer_calls w |}).

Definition labels (df : DataFrame) : list string := (columns df).*1.

(** [df[label]] *)
Definition getitem (df : DataFrame) (label : string) : M (list cell) :=
  match Dict.get (columns df) label with
  | Some values => mret values
  | None => raise (KeyError (Str label))
  end.

(** [df[label] = values]: replaces the column of that label where it is,
    or adds a last column. *)
Definition setitem (df : DataFrame) (label : string) (values : list cell) : DataFrame :=
  {| index := index df;
     columns :=
       if bool_decide (label ∈ labels df)
       then (λ col, if decide (col.1 = label) then (label, values) else col) <$> columns df
       else columns df ++ [(label, values)] |}.

(** The value of the float64 nearest to the integer [z] (ties to the even
    significand): [z] itself while it fits the 53 bits of the significand. *)
Definition float64 (z : Z) : Z :=
  let a := Z.abs z in
  let e := (Z.log2 a - 52)%Z in
  if (e <=? 0)%Z then z
  else
    let q := (a / 2 ^ e)%Z in
    let r := (a mod 2 ^ e)%Z in
    let half := (2 ^ (e - 1))%Z in
    let q' := if (r <? half)%Z then q
              else if (half <? r)%Z then (q + 1)%Z
              else if Z.even q then q else (q + 1)%Z in
    (Z.sgn z * (q' * 2 ^ e))%Z.

Definition is_text (x : cell) : bool :=
  match x with Str _ => true | _ => false end.
Definition is_number (x : cell) : bool :=
  match x with Num _ => true | _ => false end.

(** A column of results becomes a float64 column when it holds a null and a
    number and no text. *)
Definition needs_float (results : list cell) : bool :=
  negb (existsb is_text results) && existsb isna results &&
  existsb is_number results.

(** A cell as stored in a float64 column, or as it is. *)
Definition astype (float : bool) (x : cell) : cell :=
  if float then match x with Num z => Num (float64 z) | _ => x end else x.

(** The dtype inference [Series.apply] runs on the results it has
    collected: numbers next to a null are stored as float64; a column with
    text, or without a null, or without a number, is kept as it is. *)
Definition maybe_convert_objects (results : list cell) : list cell :=
  astype (needs_float results) <$> results.

(** The loop of [series.apply(f)]: [f] on every value, in order. *)
Fixpoint map_each (f : cell → M cell) (series : list cell) : M (list cell) :=
  match series with
  | [] => mret []
  | x :: rest => y ← f x; ys ← map_each f rest; mret (y :: ys)
  end.

(** [series.apply(f)] *)
Definition apply (f : cell → M cell) (series : list cell) : M (list cell) :=
  results ← map_each f series;
  mret (maybe_convert_objects results).

(** Row [i] as a record: label and value of every column, in column
    order. *)
Definition row (df : DataFrame) (i : nat) : list (string * cell) :=
  (λ col, (col.1, nth i col.2 NaN)) <$> columns df.

(** [df.to_dict(orient="records")] *)
Definition to_dict (df : DataFrame) : list (list (string * cell)) :=
  row df <$> seq 0 (index df).

End Pandas.

(** ** rapidfuzz.process *)

Module Process.

Definition worst_score : Q := 0.
Definition optimal_score : Q := 100.

(** One invocation of the scorer, recorded in the world. *)
Definition call_scorer (scorer : string → string → Q → Q)
    (query choice : string) (score_cutoff : Q) : M Q :=
  λ w, (inr (scorer query choice score_cutoff),
        {| files := files w;
           scorer_calls := scorer_calls w ++ [(query, choice)] |}).

(** [score >= score_cutoff and (result is None or score > result[1])] *)
Definition improves (score_cutoff score : Q)
    (result : option (string * Q * nat)) : bool :=
  Qle_bool score_cutoff score &&
  match result with
  | None => true
  | Some (_, best, _) => negb (Qle_bool score best)
  end.

(** The loop of [extractOne] over [enumerate(choices)]: null choices are
    skipped, a choice replaces the result only with a strictly greater
    score, and the loop stops at a perfect score. *)
Fixpoint extractOne_loop (scorer : string → string → Q → Q) (query : string)
    (choices : list cell) (key : nat) (score_cutoff : Q)
    (result : option (string * Q * nat)) : M (option (string * Q * nat)) :=
  match choices with
  | [] => mret result
  | NaN :: rest => extractOne_loop scorer query rest (S key) score_cutoff result
  | Num _ :: rest => raise TypeError
  | Str choice :: rest =>
      score ← call_scorer scorer query choice score_cutoff;
      let better := improves score_cutoff score result in
      let score_cutoff' := if better then score else score_cutoff in
      let result' := if better then Some (choice, score, key) else result in
      if Qeq_bool score optimal_score then mret result'
      else extractOne_loop scorer query rest (S key) score_cutoff' result'
  end.

(** Modelled from the spec: the search [process.extractOne] is a rapidfuzz
    library function whose code is not part of the repository.  Section 4.2
    of the specification: the score of the mention against every candidate
    name is computed and the candidate with the maximum score is selected,
    the first one encountered in iteration order on a tie.  As the library
    documents, a null query gives [None], as does an empty list of
    choices, and a query or choice that is not text is a [TypeError]. *)
Definition extractOne (query : cell) (choices : list cell)
    (scorer : string → string → Q → Q) : M (option (string * Q * nat)) :=
  match query with
  | NaN => mret None
  | Num _ => raise TypeError
  | Str q => extractOne_loop scorer q choices 0 worst_score None
  end.

End Process.

(** ** delfos/backend/main.py *)

(** The local function [get_player_id_fuzzy] of [get_predictions]; the
    dict [player_name_to_id] it closes over is a parameter. *)
Definition get_player_id_fuzzy (player_name_to_id : Dict.t cell cell)
    (name : cell) : M cell :=
  if isna name then mret NaN
  else
    r ← Process.extractOne name (Dict.keys player_name_to_id)
          RapidFuzz.token_sort_ratio;
    match r with
    | None => raise TypeError
    | Some (match_, score, _) =>
        if Qle_bool 80 score then dict_getitem player_name_to_id (Str match_)
        else mret NaN
    end.

Definition predictions_path (today : string) : string :=
  "results/predictions_" +:+ today +:+ ".csv".
Definition players_csv_path : string := "delfos/frontend/photos/players_ids.csv".
Definition fotos_path (today : string) : string :=
  "results/predictions_" +:+ today +:+ "_fotos.csv".

(** [dict(zip(df_players['player_name'], df_players['player_id']))] *)
Definition build_player_name_to_id (df_players : DataFrame) : M (Dict.t cell cell) :=
  names ← Pandas.getitem df_players "player_name";
  ids ← Pandas.getitem df_players "player_id";
  mret (Dict.of_pairs (zip names ids)).

(** [get_predictions()]; [today] is [datetime.today().strftime("%Y-%m-%d")]. *)
Definition get_predictions (today : string) : M (list (list (string * cell))) :=
  e1 ← Pandas.path_exists (predictions_path today);
  if negb e1 then raise (HTTPException 404 "Predictions not available yet")
  else
    e2 ← Pandas.path_exists players_csv_path;
    if negb e2 then raise (HTTPException 500 "Players CSV not found")
    else
      df_pred ← Pandas.read_csv (predictions_path today);
      df_players ← Pandas.read_csv players_csv_path;
      player_name_to_id ← build_player_name_to_id df_players;
      mentions ← Pandas.getitem df_pred "player_";
      player_ids ← Pandas.apply (get_player_id_fuzzy player_name_to_id) mentions;
      let df_pred := Pandas.setitem df_pred "player_id" player_ids in
      let predictions := Pandas.to_dict df_pred in
      _ ← Pandas.to_csv df_pred (fotos_path today);
      mret predictions.

(** ** Sample data *)

Definition registry_frame : DataFrame :=
  {| index := 2;
     columns := [("player_name", [Str "Lionel Messi"; Str "Leo Mesi"]);
                 ("player_id", [Num 1; Num 2])] |}.

Definition mentions_frame : DataFrame :=
  {| index := 3;
     columns := [("player_", [Str "Messi Lionel"; Str "Zidane"; NaN]);
                 ("goals", [Num 2; Num 0; Num 1])] |}.

Definition world0 : World :=
  {| files := {[ predictions_path "2025-01-01" := mentions_frame;
                 players_csv_path := registry_frame ]};
     scorer_calls := [] |}.



(** No file at all, and the batch without the registry. *)
Definition empty_world : World := {| files := ∅; scorer_calls := [] |}.

Definition world_no_registry : World :=
  {| files := {[ predictions_path "2025-01-01" := mentions_frame ]};
     scorer_calls := [] |}.

(** The dict of [registry_frame]. *)
Definition sample_registry : Dict.t cell cell :=
  Dict.of_pairs [(Str "Lionel Messi", Num 1); (Str "Leo Mesi", Num 2)].

(** A registry with a name that scores exactly 80 against "abcdx". *)
Definition boundary_registry : Dict.t cell cell := [(Str "abcde", Num 7)].

(** ** Predicates used in the statements *)

(** [x] does not exceed the score of the current result. *)
Definition le_best (x : Q) (result : option (string * Q * nat)) : Prop :=
  match result with
  | None => False
  | Some (_, best, _) => (x <= best)%Q
  end.

(** [x] exceeds the score of the current result, if there is one. *)
Definition gt_best (x : Q) (result : option (string * Q * nat)) : Prop :=
  match result with
  | None => True
  | Some (_, best, _) => (best < x)%Q
  end.

(** In the loop of [extractOne], [score_cutoff] is the score of the current
    result, and the worst score before there is one. *)
Definition loop_inv (score_cutoff : Q) (result : option (string * Q * nat)) : Prop :=
  match result with
  | None => (score_cutoff == Process.worst_score)%Q
  | Some (_, best, _) => (score_cutoff == best)%Q
  end.

(** [keys] lists the elements of [ks] in the order of their first
    occurrence: whatever stands before the first occurrence of an element in
    [ks] stands before it in [keys]. *)
Definition first_occurrence_order {K} (ks : list K) (keys : list K) : Prop :=
  (∀ x, x ∈ keys ↔ x ∈ ks) ∧
  ∀ pre m post, keys = pre ++ m :: post →
    ∃ l1 l2, ks = l1 ++ m :: l2 ∧ (m ∉ l1) ∧ (∀ x, x ∈ l1 → x ∈ pre).

(** A computation that leaves the files alone. *)
Definition quiet {A} (m : M A) : Prop := ∀ w, files (m w).2 = files w.

(** A computation whose outcome does not depend on the world. *)
Definition stateless {A} (m : M A) : Prop := ∀ w1 w2, (m w1).1 = (m w2).1.

(** A computation that only adds scorer invocations with queries in [qs]. *)
Definition queries_within {A} (qs : list cell) (m : M A) : Prop :=
  ∀ w, ∃ calls, scorer_calls (m w).2 = scorer_calls w ++ calls ∧
                Forall (λ qc, Str qc.1 ∈ qs) calls.

(** The part of [get_predictions] between reading the two files and
    storing the new column. *)
Definition resolve_all (df_pred df_players : DataFrame) : M (list cell) :=
  player_name_to_id ← build_player_name_to_id df_players;
  mentions ← Pandas.getitem df_pred "player_";
  Pandas.apply (get_player_id_fuzzy player_name_to_id) mentions.

(** ** The users database and the authentication endpoints *)

Module Sqlite.

Inductive error : Type :=
  | IntegrityError
  | OperationalError.

(** A row of the table [users]. *)
Record row : Type := {
  id : Z;
  username : string;
  password_hash : string
}.

(** The table [users] of [users.db], rows in insertion order; [None] while
    the table does not exist. *)
Definition db : Type := option (list row).

(** [CREATE TABLE IF NOT EXISTS users (...)] *)
Definition create_users_if_not_exists (d : db) : db :=
  match d with
  | None => Some []
  | Some table => Some table
  end.

(** The key [INTEGER PRIMARY KEY AUTOINCREMENT] gives the next row: one more
    than the greatest key so far (no row is ever deleted). *)
Definition next_id (table : list row) : Z :=
  (1 + foldr Z.max 0 (id <$> table))%Z.

(** [INSERT INTO users (username, password_hash) VALUES (?, ?)], with
    [username TEXT UNIQUE NOT NULL]. *)
Definition insert_user (name hash : string) (d : db) : error + db :=
  match d with
  | None => inl OperationalError
  | Some table =>
      if bool_decide (name ∈ username <$> table) then inl IntegrityError
      else inr (Some (table ++ [{| id := next_id table; username := name;
                                   password_hash := hash |}]))
  end.

(** [SELECT * FROM users WHERE username = ?] followed by [fetchone()] *)
Definition select_user (name : string) (d : db) : error + option row :=
  match d with
  | None => inl OperationalError
  | Some table => inr (List.find (λ r, bool_decide (username r = name)) table)
  end.

End Sqlite.

(** passlib's [CryptContext(schemes=["bcrypt"])]: [hash] draws a fresh salt,
    here its first argument; [verify password hash] checks a password
    against a stored hash.  Both are taken on the passwords and hashes the
    context accepts: a call that raises (bcrypt refuses some passwords, and
    a stored hash it does not recognise) is outside the model. *)
Class CryptContext : Type := {
  pwd_hash : string → string → string;
  pwd_verify : string → string → bool
}.

(** What an endpoint can raise: an exception of the application, or an
    error of sqlite3 that the code does not catch. *)
Inductive failure : Type :=
  | Raised (e : exn)
  | SqliteError (e : Sqlite.error).

(** [init_db()] *)
Definition init_db (d : Sqlite.db) : Sqlite.db :=
  Sqlite.create_users_if_not_exists d.

(** [signup(username, password)] on a database that no other connection
    holds locked ([serve_signup] below adds the lock); [salt] is the salt
    [pwd_context.hash] draws. *)
Definition signup `{CryptContext} (salt username password : string)
    (d : Sqlite.db) : (failure + list (string * string)) * Sqlite.db :=
  let password_hash := pwd_hash salt password in
  match Sqlite.insert_user username password_hash d with
  | inr d' => (inr [("message", "✅ Usuario creado correctamente")], d')
  | inl Sqlite.IntegrityError =>
      (inl (Raised (HTTPException 400 "❌ El usuario ya existe")), d)
  | inl e => (inl (SqliteError e), d)
  end.

(** [login(username, password)] *)
Definition login `{CryptContext} (username password : string)
    (d : Sqlite.db) : failure + list (string * string) :=
  match Sqlite.select_user username d with
  | inl e => inl (SqliteError e)
  | inr user =>
      if match user with
         | None => true
         | Some r => negb (pwd_verify password (Sqlite.password_hash r))
         end
      then inl (Raised (HTTPException 401 "❌ Credenciales inválidas"))
      else inr [("message", "🎉 Login exitoso")]
  end.

(** A sequence of signup requests [(salt, username, password)], served in
    order. *)
Definition signups `{CryptContext} (requests : list (string * string * string))
    (d : Sqlite.db) : Sqlite.db :=
  fold_left (λ d r, (signup r.1.1 r.1.2 r.2 d).2) requests d.

(** A context for examples: the hash is a prefix and the password, whatever
    the salt. *)
Definition toy_context : CryptContext :=
  {| pwd_hash := λ salt password, "$2b$" +:+ password;
     pwd_verify := λ password hash, bool_decide (hash = "$2b$" +:+ password) |}.

(** ** The fixtures endpoint *)

Definition fixtures_path (today : string) : string :=
  "results/fixtures/fixtures_" +:+ today +:+ ".json".

(** [get_matches()]; a fixtures file is identified with the value
    [json.load] parses from it. *)
Definition get_matches {J : Type} (today : string) (fixtures : gmap string J) : exn + J :=
  match fixtures !! fixtures_path today with
  | None => inl (HTTPException 404 "Fixtures not available yet")
  | Some matches => inr matches
  end.

(** The constraints of the table [users]: usernames are unique and so are
    the keys. *)
Definition db_ok (d : Sqlite.db) : Prop :=
  match d with
  | None => True
  | Some table =>
      NoDup (Sqlite.username <$> table) ∧ NoDup (Sqlite.id <$> table)
  end.

(** The two answers of [login]. *)
Definition login_ok : failure + list (string * string) :=
  inr [("message", "🎉 Login exitoso")].
Definition login_refused : failure + list (string * string) :=
  inl (Raised (HTTPException 401 "❌ Credenciales inválidas")).

(** ** More sample data *)

(** A registry file without the column of names, and one with the two
    columns and no row. *)
Definition registry_without_names : DataFrame :=
  {| index := 1; columns := [("player_id", [Num 1])] |}.

Definition empty_registry_frame : DataFrame :=
  {| index := 0; columns := [("player_name", []); ("player_id", [])] |}.

Definition world_without_names : World :=
  {| files := {[ predictions_path "2025-01-01" := mentions_frame;
                 players_csv_path := registry_without_names ]};
     scorer_calls := [] |}.

(** A batch whose mentions are all null, with the empty registry. *)
Definition null_mentions_frame : DataFrame :=
  {| index := 2;
     columns := [("player_", [NaN; NaN]); ("goals", [Num 2; Num 0])] |}.

Definition world_null_batch : World :=
  {| files := {[ predictions_path "2025-01-01" := null_mentions_frame;
                 players_csv_path := empty_registry_frame ]};
     scorer_calls := [] |}.

(** Registry rows that name one player twice. *)
Definition repeated_rows : list (cell * cell) :=
  [(Str "Lionel Messi", Num 1); (Str "Leo Mesi", Num 2);
   (Str "Lionel Messi", Num 3)].

(** Signup requests that follow a first signup of "ana". *)
Definition later_requests : list (string * string * string) :=
  [("s2", "ana", "other"); ("s3", "bob", "secret")].


(** ** Sample data: ties, large identifiers, an empty registry *)

(** Two registry names that both score 80 against "abcdx". *)
Definition tied_accepted_rows : list (cell * cell) :=
  [(Str "abcde", Num 7); (Str "abcdf", Num 8)].




(** The sample batch with a registry file that has no row. *)
Definition world_empty_registry : World :=
  {| files := {[ predictions_path "2025-01-01" := mentions_frame;
                 players_csv_path := empty_registry_frame ]};
     scorer_calls := [] |}.

(** ** The connection [signup] leaves behind *)

(** [signup] above is the endpoint on a database that no other connection
    holds locked.  Each call opens a connection of its own and never closes
    it.  After a commit that connection holds no lock; after the
    [IntegrityError] of a refused signup it is left with its write
    transaction open, and as long as it is alive it holds the write lock of
    the database file: the insert of any later signup then raises
    [OperationalError] ("database is locked").  Readers are not blocked. *)
Record server : Type := {
  database : Sqlite.db;
  write_locked : bool
}.

(** [signup] as served, with the lock. *)
Definition serve_signup `{CryptContext} (salt username password : string)
    (s : server) : (failure + list (string * string)) * server :=
  if write_locked s then (inl (SqliteError Sqlite.OperationalError), s)
  else
    match signup salt username password (database s) with
    | (inl (Raised e), d) => (inl (Raised e), {| database := d; write_locked := true |})
    | (r, d) => (r, {| database := d; write_locked := false |})
    end.

(** [login] as served: it only reads. *)
Definition serve_login `{CryptContext} (username password : string) (s : server)
    : failure + list (string * string) :=
  login username password (database s).

(** A sequence of signup requests served in order, no connection being
    released in between. *)
Definition serve_signups `{CryptContext} (requests : list (string * string * string))
    (s : server) : server :=
  fold_left (λ s r, (serve_signup r.1.1 r.1.2 r.2 s).2) requests s.

(** The requests up to the first one that repeats a username. *)
Fixpoint distinct_prefix (seen : list string)
    (requests : list (string * string * string)) : list (string * string * string) :=
  match requests with
  | [] => []
  | r :: rest =>
      if bool_decide (r.1.2 ∈ seen) then []
      else r :: distinct_prefix (r.1.2 :: seen) rest
  end.

(** A server whose database [init_db] has just created. *)
Definition fresh_server : server :=
  {| database := init_db None; write_locked := false |}.

(** * Properties *)

(** ** The scorer *)

Section scorer_facts.
Import RapidFuzz.

Lemma lcs_seq_similarity_refl s : lcs_seq_similarity s s = length s.
Proof.
  induction s as [|x s IH]; simpl; [done|].
  rewrite decide_True by done. by rewrite IH.
Qed.

Lemma lcs_seq_similarity_le s1 s2 :
  (lcs_seq_similarity s1 s2 ≤ length s1 ∧ lcs_seq_similarity s1 s2 ≤ length s2)%nat.
Proof.
  revert s2. induction s1 as [|x s1 IH]; intros s2.
  { destruct s2; simpl; lia. }
  induction s2 as [|y s2 IH2]; [simpl; lia|].
  change (lcs_seq_similarity (x :: s1) (y :: s2)) with
    (if decide (x = y) then S (lcs_seq_similarity s1 s2)
     else Nat.max (lcs_seq_similarity s1 (y :: s2)) (lcs_seq_similarity (x :: s1) s2)).
  pose proof (IH s2). pose proof (IH (y :: s2)).
  case_decide; simpl in *; lia.
Qed.

Lemma indel_distance_refl s : indel_distance s s = 0%nat.
Proof. unfold indel_distance. rewrite lcs_seq_similarity_refl. lia. Qed.

Lemma indel_distance_le s1 s2 : (indel_distance s1 s2 ≤ length s1 + length s2)%nat.
Proof. unfold indel_distance. lia. Qed.

Lemma indel_normalized_distance_range s1 s2 :
  (0 <= indel_normalized_distance s1 s2 <= 1)%Q.
Proof.
  unfold indel_normalized_distance.
  destruct (Nat.eqb_spec (length s1 + length s2) 0) as [|Hne]; [lra|].
  pose proof (indel_distance_le s1 s2).
  unfold Qle; simpl. rewrite Z.mul_1_r, Z.mul_1_l.
  rewrite <- (positive_nat_Z (Pos.of_nat _)), Nat2Pos.id by done. lia.
Qed.

Lemma norm_sim_range a b : (0 <= norm_sim a b <= 1)%Q.
Proof.
  unfold norm_sim.
  pose proof (indel_normalized_distance_range
    (Str.chars (Str.join " " (Str.sorted (Str.split a))))
    (Str.chars (Str.join " " (Str.sorted (Str.split b))))).
  simpl. lra.
Qed.

Lemma score_eq a b : score a b = (norm_sim a b * 100)%Q.
Proof.
  unfold score, token_sort_ratio, ratio, indel_normalized_similarity, with_cutoff.
  fold (norm_sim a b).
  assert (Qle_bool (0 / 100) (norm_sim a b) = true) as ->; [|done].
  apply Qle_bool_iff. pose proof (norm_sim_range a b).
  unfold Qdiv. change (/ 100)%Q with (1 # 100)%Q. lra.
Qed.

Lemma score_range a b : (0 <= score a b <= 100)%Q.
Proof. rewrite score_eq. pose proof (norm_sim_range a b). lra. Qed.

(** With a cutoff, the scorer reports the score, or 0 when the score is
    below the cutoff. *)
Lemma token_sort_ratio_cutoff a b score_cutoff :
  token_sort_ratio a b score_cutoff =
  if Qle_bool score_cutoff (score a b) then score a b else 0%Q.
Proof.
  rewrite score_eq.
  unfold token_sort_ratio, ratio, indel_normalized_similarity, with_cutoff.
  fold (norm_sim a b).
  destruct (Qle_bool (score_cutoff / 100) (norm_sim a b)) eqn:E1;
    destruct (Qle_bool score_cutoff (norm_sim a b * 100)) eqn:E2; try done.
  - apply Qle_bool_iff in E1. apply not_true_iff_false in E2.
    exfalso; apply E2, Qle_bool_iff.
    unfold Qdiv in E1. change (/ 100)%Q with (1 # 100)%Q in E1. lra.
  - apply Qle_bool_iff in E2. apply not_true_iff_false in E1.
    exfalso; apply E1, Qle_bool_iff.
    unfold Qdiv. change (/ 100)%Q with (1 # 100)%Q. lra.
Qed.

Lemma sorted_Permutation (l1 l2 : list string) :
  l1 ≡ₚ l2 → Str.sorted l1 = Str.sorted l2.
Proof.
  intros Hp. unfold Str.sorted.
  apply (StronglySorted_unique String.le).
  - apply StronglySorted_merge_sort; apply _.
  - apply StronglySorted_merge_sort; apply _.
  - by rewrite !merge_sort_Permutation.
Qed.

Lemma score_identical s : (score s s == 100)%Q.
Proof.
  rewrite score_eq. unfold norm_sim, indel_normalized_distance.
  rewrite indel_distance_refl.
  destruct (_ =? _)%nat; [reflexivity|].
  simpl. unfold Qeq, Qminus, Qplus, Qmult, Qopp; simpl. lia.
Qed.
End scorer_facts.

Example run_ex :
  (get_predictions "2025-01-01" world0).1 =
  inr [ [("player_", Str "Messi Lionel"); ("goals", Num 2); ("player_id", Num 1)];
        [("player_", Str "Zidane"); ("goals", Num 0); ("player_id", NaN)];
        [("player_", NaN); ("goals", Num 1); ("player_id", NaN)] ].
Proof. vm_compute. reflexivity. Qed.


(** ** The search *)

Lemma Qle_bool_false a b : Qle_bool a b = false → (b < a)%Q.
Proof.
  intros E. apply Qnot_le_lt. intros H%Qle_bool_iff. congruence.
Qed.

Section search.
Import Process.
Variable scorer : string → string → Q → Q.
Variable base : string → string → Q.
Hypothesis scorer_cutoff : ∀ q c score_cutoff,
  scorer q c score_cutoff =
  if Qle_bool score_cutoff (base q c) then base q c else 0%Q.
Hypothesis base_range : ∀ q c, (0 <= base q c <= 100)%Q.

Lemma improves_spec q c score_cutoff result :
  loop_inv score_cutoff result →
  (improves score_cutoff (scorer q c score_cutoff) result = true ∧
   scorer q c score_cutoff = base q c ∧ gt_best (base q c) result)
  ∨ (improves score_cutoff (scorer q c score_cutoff) result = false ∧
     le_best (base q c) result).
Proof.
  intros Hinv. rewrite scorer_cutoff. unfold improves.
  pose proof (base_range q c) as [Hlo Hhi].
  destruct result as [[[m best] k]|]; simpl in *.
  - destruct (Qle_bool score_cutoff (base q c)) eqn:E.
    + rewrite E. simpl.
      destruct (Qle_bool (base q c) best) eqn:E2; simpl.
      * right. split; [done|]. by apply Qle_bool_iff.
      * left. split_and!; [done..|]. by apply Qle_bool_false.
    + apply Qle_bool_false in E. right. split; [|lra].
      assert (Qle_bool score_cutoff 0 = false) as ->; [|done].
      apply not_true_iff_false. intros H%Qle_bool_iff. lra.
  - unfold worst_score in Hinv.
    assert (Qle_bool score_cutoff (base q c) = true) as E.
    { apply Qle_bool_iff. lra. }
    rewrite E, E. simpl. by left.
Qed.

Lemma extractOne_loop_spec q choices :
  ∀ key score_cutoff result w r w',
    loop_inv score_cutoff result →
    extractOne_loop scorer q choices key score_cutoff result w = (inr r, w') →
    (r = result ∧ ∀ c, Str c ∈ choices → le_best (base q c) result)
    ∨ (∃ l1 m l2,
         choices = l1 ++ Str m :: l2 ∧
         r = Some (m, base q m, (key + length l1)%nat) ∧
         (∀ c, Str c ∈ l1 → (base q c < base q m)%Q) ∧
         (∀ c, Str c ∈ l2 → (base q c <= base q m)%Q) ∧
         gt_best (base q m) result).
Proof.
  induction choices as [|ch rest IH]; intros key score_cutoff result w r w' Hinv Hrun.
  { simpl in Hrun. injection Hrun as <- _. left. split; [done|].
    intros c Hc. by apply elem_of_nil in Hc. }
  destruct ch as [|c|z]; simpl in Hrun; [| |done].
  - destruct (IH _ _ _ _ _ _ Hinv Hrun)
      as [[-> Hall]|(l1 & m & l2 & -> & -> & H1 & H2 & H3)].
    + left. split; [done|]. intros c [?|?]%elem_of_cons; [done|auto].
    + right. exists (NaN :: l1), m, l2. split_and!; [done| |  |done|done].
      * simpl. do 2 f_equal. lia.
      * intros c [?|?]%elem_of_cons; [done|auto].
  - unfold mbind, M_bind, call_scorer in Hrun. simpl in Hrun.
    pose proof (base_range q c) as [Hlo Hhi].
    destruct (improves_spec q c score_cutoff result Hinv)
      as [(Hb & Hsc & Hgt)|(Hb & Hle)]; rewrite Hb in Hrun.
    + rewrite Hsc in Hrun.
      destruct (Qeq_bool (base q c) optimal_score) eqn:Eopt.
      * apply Qeq_bool_iff in Eopt. unfold optimal_score in Eopt.
        injection Hrun as <- _. right. exists [], c, rest.
        split_and!; [done| |  | |done].
        -- simpl. do 2 f_equal. lia.
        -- intros c' Hc'. by apply elem_of_nil in Hc'.
        -- intros c' _. pose proof (base_range q c'). lra.
      * assert (loop_inv (base q c) (Some (c, base q c, key))) as Hinv'
          by (simpl; reflexivity).
        destruct (IH _ _ _ _ _ _ Hinv' Hrun)
          as [[-> Hall]|(l1 & m & l2 & -> & -> & H1 & H2 & H3)].
        -- right. exists [], c, rest. split_and!; [done| | |done|done].
           ++ simpl. do 2 f_equal. lia.
           ++ intros c' Hc'. by apply elem_of_nil in Hc'.
        -- right. exists (Str c :: l1), m, l2. simpl in H3.
           split_and!; [done| | |done|].
           ++ simpl. do 2 f_equal. lia.
           ++ intros c' [?|?]%elem_of_cons; [by simplify_eq|auto].
           ++ destruct result as [[[m0 b0] k0]|]; simpl in *; [lra|done].
    + destruct (Qeq_bool (scorer q c score_cutoff) optimal_score) eqn:Eopt.
      * apply Qeq_bool_iff in Eopt. unfold optimal_score in Eopt.
        injection Hrun as <- _. left. split; [done|].
        rewrite scorer_cutoff in Eopt.
        destruct result as [[[m0 b0] k0]|]; simpl in *; [|done].
        destruct (Qle_bool score_cutoff (base q c)); [|lra].
        intros c' _. pose proof (base_range q c'). lra.
      * destruct (IH _ _ _ _ _ _ Hinv Hrun)
          as [[-> Hall]|(l1 & m & l2 & -> & -> & H1 & H2 & H3)].
        -- left. split; [done|]. intros c' [?|?]%elem_of_cons; [by simplify_eq|auto].
        -- right. exists (Str c :: l1), m, l2.
           split_and!; [done| | |done|done].
           ++ simpl. do 2 f_equal. lia.
           ++ intros c' [?|?]%elem_of_cons; [|auto]. simplify_eq.
              destruct result as [[[m0 b0] k0]|]; simpl in *; [lra|done].
  Qed.
End search.

(** ** Effects of the computations *)

Section effects.
Context {A B : Type}.

Lemma quiet_ret (x : A) : quiet (mret x).
Proof. done. Qed.
Lemma quiet_raise e : quiet (raise (A:=A) e).
Proof. done. Qed.
Lemma quiet_bind (m : M A) (f : A → M B) :
  quiet m → (∀ x, quiet (f x)) → quiet (m ≫= f).
Proof.
  intros Hm Hf w. unfold mbind, M_bind. specialize (Hm w).
  destruct (m w) as [[e|x] w1]; simpl in *; [done|].
  by rewrite Hf.
Qed.

Lemma stateless_ret (x : A) : stateless (mret x).
Proof. done. Qed.
Lemma stateless_raise e : stateless (raise (A:=A) e).
Proof. done. Qed.
Lemma stateless_bind (m : M A) (f : A → M B) :
  stateless m → (∀ x, stateless (f x)) → stateless (m ≫= f).
Proof.
  intros Hm Hf w1 w2. unfold mbind, M_bind. specialize (Hm w1 w2).
  destruct (m w1) as [[e1|x1] w1'], (m w2) as [[e2|x2] w2']; simplify_eq/=;
    [done|]. apply Hf.
Qed.

Lemma queries_within_ret qs (x : A) : queries_within qs (mret x).
Proof. intros w. exists []. by rewrite app_nil_r. Qed.
Lemma queries_within_raise qs e : queries_within qs (raise (A:=A) e).
Proof. intros w. exists []. by rewrite app_nil_r. Qed.
Lemma queries_within_bind qs (m : M A) (f : A → M B) :
  queries_within qs m → (∀ x, queries_within qs (f x)) →
  queries_within qs (m ≫= f).
Proof.
  intros Hm Hf w. unfold mbind, M_bind. destruct (Hm w) as (c1 & E1 & F1).
  destruct (m w) as [[e|x] w1]; simpl in *; [by exists c1|].
  destruct (Hf x w1) as (c2 & E2 & F2). exists (c1 ++ c2).
  rewrite E2, E1, (assoc_L (++)). split; [done|]. by apply Forall_app.
Qed.
End effects.

Lemma queries_within_mono {A} qs qs' (m : M A) :
  qs ⊆ qs' → queries_within qs m → queries_within qs' m.
Proof.
  intros Hsub Hm w. destruct (Hm w) as (calls & E & F). exists calls.
  split; [done|]. eapply Forall_impl; [exact F|]. intros qc ?. by apply Hsub.
Qed.

Create HintDb effects.
#[local] Hint Resolve quiet_ret quiet_raise stateless_ret stateless_raise
  queries_within_ret queries_within_raise : effects.

Lemma call_scorer_quiet scorer q c cut : quiet (Process.call_scorer scorer q c cut).
Proof. done. Qed.
Lemma call_scorer_stateless scorer q c cut :
  stateless (Process.call_scorer scorer q c cut).
Proof. done. Qed.
Lemma call_scorer_queries scorer q c cut :
  queries_within [Str q] (Process.call_scorer scorer q c cut).
Proof.
  intros w. exists [(q, c)]. split; [done|].
  apply Forall_singleton. simpl. by left.
Qed.

Lemma extractOne_loop_effects scorer q choices key cut result :
  quiet (Process.extractOne_loop scorer q choices key cut result) ∧
  stateless (Process.extractOne_loop scorer q choices key cut result) ∧
  queries_within [Str q] (Process.extractOne_loop scorer q choices key cut result).
Proof.
  revert key cut result.
  induction choices as [|[|c|z] rest IH]; intros key cut result; simpl;
    [split_and!; auto with effects|apply IH| |split_and!; auto with effects].
  split_and!.
  - apply quiet_bind; [apply call_scorer_quiet|]. intros s.
    destruct (Qeq_bool _ _); [auto with effects|apply IH].
  - apply stateless_bind; [apply call_scorer_stateless|]. intros s.
    destruct (Qeq_bool _ _); [auto with effects|apply IH].
  - apply queries_within_bind; [apply call_scorer_queries|]. intros s.
    destruct (Qeq_bool _ _); [auto with effects|apply IH].
Qed.

Lemma extractOne_effects query choices scorer :
  quiet (Process.extractOne query choices scorer) ∧
  stateless (Process.extractOne query choices scorer) ∧
  queries_within [query] (Process.extractOne query choices scorer).
Proof.
  destruct query as [|q|z]; simpl; [split_and!; auto with effects| |
    split_and!; auto with effects].
  apply extractOne_loop_effects.
Qed.

Lemma dict_getitem_effects qs d k :
  quiet (dict_getitem d k) ∧ stateless (dict_getitem d k) ∧
  queries_within qs (dict_getitem d k).
Proof. unfold dict_getitem. destruct (Dict.get d k); split_and!; auto with effects. Qed.

Lemma get_player_id_fuzzy_effects d name :
  quiet (get_player_id_fuzzy d name) ∧ stateless (get_player_id_fuzzy d name) ∧
  queries_within [name] (get_player_id_fuzzy d name).
Proof.
  unfold get_player_id_fuzzy. destruct (isna name); [split_and!; auto with effects|].
  destruct (extractOne_effects name (Dict.keys d) RapidFuzz.token_sort_ratio)
    as (Hq & Hs & Hc).
  split_and!.
  - apply quiet_bind; [done|]. intros [[[m s] k]|]; [|auto with effects].
    destruct (Qle_bool 80 s); [apply (dict_getitem_effects [])|auto with effects].
  - apply stateless_bind; [done|]. intros [[[m s] k]|]; [|auto with effects].
    destruct (Qle_bool 80 s); [apply (dict_getitem_effects [])|auto with effects].
  - apply queries_within_bind; [done|]. intros [[[m s] k]|]; [|auto with effects].
    destruct (Qle_bool 80 s); [apply dict_getitem_effects|auto with effects].
Qed.

Lemma map_each_effects d mentions :
  quiet (Pandas.map_each (get_player_id_fuzzy d) mentions) ∧
  stateless (Pandas.map_each (get_player_id_fuzzy d) mentions) ∧
  queries_within mentions (Pandas.map_each (get_player_id_fuzzy d) mentions).
Proof.
  induction mentions as [|x rest (IHq & IHs & IHc)]; simpl;
    [split_and!; auto with effects|].
  destruct (get_player_id_fuzzy_effects d x) as (Hq & Hs & Hc).
  split_and!.
  - apply quiet_bind; [done|]. intros y.
    apply quiet_bind; [done|]. intros ys. apply quiet_ret.
  - apply stateless_bind; [done|]. intros y.
    apply stateless_bind; [done|]. intros ys. apply stateless_ret.
  - apply queries_within_bind.
    + eapply queries_within_mono; [|exact Hc].
      intros c ->%list_elem_of_singleton. by left.
    + intros y. apply queries_within_bind; [|intros ys; apply queries_within_ret].
      eapply queries_within_mono; [|exact IHc]. intros c ?. by right.
Qed.

Lemma apply_effects d mentions :
  quiet (Pandas.apply (get_player_id_fuzzy d) mentions) ∧
  stateless (Pandas.apply (get_player_id_fuzzy d) mentions) ∧
  queries_within mentions (Pandas.apply (get_player_id_fuzzy d) mentions).
Proof.
  destruct (map_each_effects d mentions) as (Hq & Hs & Hc).
  unfold Pandas.apply. split_and!.
  - apply quiet_bind; [done|]. intros ys. apply quiet_ret.
  - apply stateless_bind; [done|]. intros ys. apply stateless_ret.
  - apply queries_within_bind; [done|]. intros ys. apply queries_within_ret.
Qed.

(** ** Dicts *)

Section dict_facts.
Context {K V : Type} `{EqDecision K}.
Implicit Types (d : Dict.t K V) (k : K) (v : V) (pairs : list (K * V)).

Lemma keys_setitem d k v :
  Dict.keys (Dict.setitem d k v) =
  if decide (k ∈ Dict.keys d) then Dict.keys d else Dict.keys d ++ [k].
Proof.
  unfold Dict.keys. induction d as [|[k' v'] d IH]; csimpl; [done|].
  destruct (decide (k' = k)) as [->|Hne]; csimpl.
  - rewrite decide_True; [done|]. by left.
  - rewrite IH. destruct (decide (k ∈ d.*1)) as [Hin|Hnin].
    + rewrite decide_True; [done|]. by right.
    + rewrite decide_False; [done|].
      intros [?|?]%elem_of_cons; [congruence|done].
Qed.

Lemma get_setitem d k v k' :
  Dict.get (Dict.setitem d k v) k' =
  if decide (k = k') then Some v else Dict.get d k'.
Proof.
  induction d as [|[k0 v0] d IH]; simpl.
  { destruct (decide (k = k')); done. }
  destruct (decide (k0 = k)) as [->|Hne]; simpl.
  - destruct (decide (k = k')); done.
  - rewrite IH. destruct (decide (k0 = k')) as [->|]; [|done].
    by rewrite decide_False.
Qed.

Lemma get_is_Some d k : k ∈ Dict.keys d → is_Some (Dict.get d k).
Proof.
  unfold Dict.keys. induction d as [|[k0 v0] d IH]; csimpl.
  { by intros ?%elem_of_nil. }
  intros [->|Hin]%elem_of_cons.
  - rewrite decide_True by done. eauto.
  - destruct (decide (k0 = k)); eauto.
Qed.




Lemma first_occurrence_order_snoc ks keys k v (d : Dict.t K V) :
  keys = Dict.keys d →
  first_occurrence_order ks keys →
  first_occurrence_order (ks ++ [k]) (Dict.keys (Dict.setitem d k v)).
Proof.
  intros -> [Hel Hord]. rewrite keys_setitem.
  destruct (decide (k ∈ Dict.keys d)) as [Hin|Hnin]; split.
  - intros x. rewrite elem_of_app, list_elem_of_singleton, <- Hel.
    split; [auto|]. intros [?| ->]; done.
  - intros pre m post Hsplit.
    destruct (Hord _ _ _ Hsplit) as (l1 & l2 & -> & ? & ?).
    exists l1, (l2 ++ [k]). by rewrite <- (assoc_L (++)).
  - intros x. by rewrite !elem_of_app, Hel.
  - intros pre m post Hsplit.
    destruct post as [|y post _] using rev_ind.
    + apply app_inj_tail in Hsplit as [<- <-].
      exists ks, []. split_and!; [done|by rewrite <- Hel|].
      intros x. by rewrite Hel.
    + rewrite app_comm_cons, (assoc_L (++)) in Hsplit.
      apply app_inj_tail in Hsplit as [Hsplit <-].
      destruct (Hord _ _ _ Hsplit) as (l1 & l2 & -> & ? & ?).
      exists l1, (l2 ++ [k]). by rewrite <- (assoc_L (++)).
Qed.

Lemma keys_fold_setitem pairs ks d :
  first_occurrence_order ks (Dict.keys d) →
  first_occurrence_order (ks ++ pairs.*1)
    (Dict.keys (fold_left (λ d kv, Dict.setitem d kv.1 kv.2) pairs d)).
Proof.
  revert ks d. induction pairs as [|[k v] pairs IH]; intros ks d Hd; simpl.
  { by rewrite app_nil_r. }
  rewrite (cons_middle k), (assoc_L (++)). apply IH.
  by eapply first_occurrence_order_snoc.
Qed.

Lemma keys_of_pairs pairs :
  first_occurrence_order pairs.*1 (Dict.keys (Dict.of_pairs pairs)).
Proof.
  apply (keys_fold_setitem pairs [] []). split; [done|].
  intros pre m post Hsplit. by destruct pre.
Qed.
End dict_facts.

(** ** The resolver *)

Lemma extractOne_loop_total scorer q choices :
  ∀ key cut result w,
    (∀ z, Num z ∉ choices) →
    ∃ r w', Process.extractOne_loop scorer q choices key cut result w = (inr r, w').
Proof.
  induction choices as [|[|c|z] rest IH]; intros key cut result w Hnum; simpl.
  - eauto.
  - apply IH. intros z Hz. apply (Hnum z). by right.
  - unfold mbind, M_bind, Process.call_scorer; simpl.
    destruct (Qeq_bool _ _); [eauto|].
    apply IH. intros z Hz. apply (Hnum z). by right.
  - exfalso. apply (Hnum z). by left.
Qed.

Lemma extractOne_loop_raises scorer q choices :
  ∀ key cut result w e w',
    Process.extractOne_loop scorer q choices key cut result w = (inl e, w') →
    e = TypeError.
Proof.
  induction choices as [|[|c|z] rest IH]; intros key cut result w e w'; simpl.
  - done.
  - apply IH.
  - unfold mbind, M_bind, Process.call_scorer; simpl.
    destruct (Qeq_bool _ _); [done|]. apply IH.
  - by intros [= <- _].
Qed.

(** What the search returns for a text query: no result exactly when no
    choice is text, and otherwise the first choice of greatest score. *)
Lemma extractOne_text q choices w r w' :
  Process.extractOne (Str q) choices RapidFuzz.token_sort_ratio w = (inr r, w') →
  match r with
  | None => ∀ c, Str c ∉ choices
  | Some (m, s, k) =>
      ∃ l1 l2, choices = l1 ++ Str m :: l2 ∧ s = RapidFuzz.score q m ∧
               k = length l1 ∧
               (∀ c, Str c ∈ l1 → (RapidFuzz.score q c < RapidFuzz.score q m)%Q) ∧
               (∀ c, Str c ∈ l2 → (RapidFuzz.score q c <= RapidFuzz.score q m)%Q)
  end.
Proof.
  simpl. intros Hrun.
  destruct (extractOne_loop_spec RapidFuzz.token_sort_ratio RapidFuzz.score
              token_sort_ratio_cutoff score_range q choices 0 Process.worst_score
              None w r w') as [[-> Hall]|(l1 & m & l2 & -> & -> & H1 & H2 & _)];
    [simpl; reflexivity|done| |].
  - intros c Hc. by apply Hall in Hc.
  - by exists l1, l2.
Qed.

Lemma extractOne_raises query choices scorer w e w' :
  Process.extractOne query choices scorer w = (inl e, w') → e = TypeError.
Proof.
  destruct query as [|q|z]; simpl; [done| |by intros [= <- _]].
  apply extractOne_loop_raises.
Qed.

Lemma map_each_lookup (f : cell → M cell) mentions :
  ∀ w results w',
    Pandas.map_each f mentions w = (inr results, w') →
    length results = length mentions ∧
    ∀ i x, mentions !! i = Some x →
      ∃ y wi wi', results !! i = Some y ∧ f x wi = (inr y, wi').
Proof.
  induction mentions as [|x rest IH]; intros w results w'; simpl.
  { intros [= <- _]. split; [done|]. intros i x Hx. by destruct i. }
  unfold mbind, M_bind.
  destruct (f x w) as [[e|y] w1] eqn:Ef; [done|].
  destruct (Pandas.map_each f rest w1) as [[e|ys] w2] eqn:Er; [done|].
  intros [= <- _]. apply IH in Er as [Hlen Hlook].
  split; [simpl; by rewrite Hlen|].
  intros [|i] x' Hx'; simpl in *.
  - simplify_eq. eauto.
  - eauto.
Qed.

(** A run of [apply] is a run of its loop followed by the dtype
    inference. *)
Lemma apply_run (f : cell → M cell) mentions w ids w' :
  Pandas.apply f mentions w = (inr ids, w') →
  ∃ results, Pandas.map_each f mentions w = (inr results, w') ∧
             ids = Pandas.maybe_convert_objects results.
Proof.
  unfold Pandas.apply, mbind, M_bind.
  destruct (Pandas.map_each f mentions w) as [[e|results] w1]; [done|].
  intros [= <- <-]. by exists results.
Qed.

Lemma astype_null float x : x = NaN → Pandas.astype float x = NaN.
Proof. intros ->. by destruct float. Qed.

Lemma maybe_convert_objects_lookup results i :
  Pandas.maybe_convert_objects results !! i
  = Pandas.astype (Pandas.needs_float results) <$> results !! i.
Proof. unfold Pandas.maybe_convert_objects. by rewrite list_lookup_fmap. Qed.

Lemma maybe_convert_objects_length results :
  length (Pandas.maybe_convert_objects results) = length results.
Proof. unfold Pandas.maybe_convert_objects. by rewrite length_fmap. Qed.


(** C2. A null mention is answered with the null result at once: the world,
    and with it the record of scorer invocations, is unchanged.  Over a whole
    column, every null mention gets the null identifier, and every scorer
    invocation made has a text mention of the column as its query. *)
Theorem null_mention_unresolved (d : Dict.t cell cell) :
  (∀ w, get_player_id_fuzzy d NaN w = (inr NaN, w)) ∧
  (∀ mentions w ids w',
     Pandas.apply (get_player_id_fuzzy d) mentions w = (inr ids, w') →
     ∀ i, mentions !! i = Some NaN → ids !! i = Some NaN) ∧
  (∀ mentions w, ∃ calls,
     scorer_calls (Pandas.apply (get_player_id_fuzzy d) mentions w).2
       = scorer_calls w ++ calls ∧
     Forall (λ qc, Str qc.1 ∈ mentions) calls).
Proof.
  split_and!.
  - done.
  - intros mentions w ids w' Hrun i Hi.
    apply apply_run in Hrun as (results & Hrun & ->).
    destruct (map_each_lookup _ _ _ _ _ Hrun) as [_ Hlook].
    destruct (Hlook i NaN Hi) as (y & wi & wi' & Hy & Hres).
    injection Hres as <- _.
    rewrite maybe_convert_objects_lookup, Hy. simpl. by rewrite astype_null.
  - intros mentions w. apply apply_effects.
Qed.

Lemma extractOne_result_is_key (d : Dict.t cell cell) q w m s k w1 :
  Process.extractOne (Str q) (Dict.keys d) RapidFuzz.token_sort_ratio w
    = (inr (Some (m, s, k)), w1) →
  Str m ∈ Dict.keys d ∧
  ∃ v, Dict.get d (Str m) = Some v ∧ dict_getitem d (Str m) w1 = (inr v, w1).
Proof.
  intros Hrun.
  apply extractOne_text in Hrun as (l1 & l2 & Hsplit & _).
  assert (Str m ∈ Dict.keys d) as Hin.
  { rewrite Hsplit. apply elem_of_app. right. by left. }
  split; [done|]. destruct (get_is_Some d _ Hin) as [v Hv].
  exists v. split; [done|]. unfold dict_getitem. by rewrite Hv.
Qed.

Lemma get_player_id_fuzzy_text (d : Dict.t cell cell) q w :
  get_player_id_fuzzy d (Str q) w =
  match Process.extractOne (Str q) (Dict.keys d) RapidFuzz.token_sort_ratio w with
  | (inl e, w') => (inl e, w')
  | (inr None, w') => (inl TypeError, w')
  | (inr (Some (m, s, _)), w') =>
      if Qle_bool 80 s then dict_getitem d (Str m) w' else (inr NaN, w')
  end.
Proof.
  unfold get_player_id_fuzzy. change (isna (Str q)) with false. cbv iota.
  unfold mbind, M_bind.
  destruct (Process.extractOne _ _ _ w) as [[e|[[[m s] k]|]] w']; [done| |done].
  by destruct (Qle_bool 80 s).
Qed.

Lemma get_player_id_fuzzy_value (d : Dict.t cell cell) name w v w' :
  get_player_id_fuzzy d name w = (inr v, w') →
  v = NaN ∨ ∃ m, Str m ∈ Dict.keys d ∧ Dict.get d (Str m) = Some v.
Proof.
  destruct name as [|q|z]; [by intros [= <- _]; left| |done].
  rewrite get_player_id_fuzzy_text.
  destruct (Process.extractOne _ _ _ w) as [[e0|[[[m s] k]|]] w1] eqn:E; [done| |done].
  destruct (Qle_bool 80 s); [|by intros [= <- _]; left].
  destruct (extractOne_result_is_key d q w m s k w1 E) as (Hin & v0 & Hget & ->).
  intros [= <- _]. right. by exists m.
Qed.

Lemma threshold_cases (d : Dict.t cell cell) q w m s k w1 :
  Process.extractOne (Str q) (Dict.keys d) RapidFuzz.token_sort_ratio w
    = (inr (Some (m, s, k)), w1) →
  ((80 <= s)%Q ∧ ∃ v, get_player_id_fuzzy d (Str q) w = (inr v, w1))
  ∨ ((s < 80)%Q ∧ get_player_id_fuzzy d (Str q) w = (inr NaN, w1)).
Proof.
  intros Hrun.
  destruct (extractOne_result_is_key d q w m s k w1 Hrun) as (Hin & v & Hget & Hlook).
  rewrite get_player_id_fuzzy_text, Hrun.
  destruct (Qle_bool 80 s) eqn:E.
  - left. split; [by apply Qle_bool_iff|]. by exists v.
  - right. split; [by apply Qle_bool_false|done].
Qed.

(** C3. The threshold of 80 is inclusive.  When the search returns the
    candidate [m] with score [s], [s] is the greatest score over the
    registry's names; from [s >= 80] on, and so at [s = 80], the resolver
    returns the identifier the registry holds for [m]; below 80 it returns
    the null result; and an accepted score lies between 80 and 100. *)
Theorem threshold_inclusive (d : Dict.t cell cell) q w m s k w1 :
  Process.extractOne (Str q) (Dict.keys d) RapidFuzz.token_sort_ratio w
    = (inr (Some (m, s, k)), w1) →
  (s = RapidFuzz.score q m ∧
   ∀ c, Str c ∈ Dict.keys d → (RapidFuzz.score q c <= s)%Q) ∧
  ((80 <= s)%Q →
     (s <= 100)%Q ∧
     ∃ v, Dict.get d (Str m) = Some v ∧
          get_player_id_fuzzy d (Str q) w = (inr v, w1)) ∧
  ((s < 80)%Q → get_player_id_fuzzy d (Str q) w = (inr NaN, w1)).
Proof.
  intros Hrun.
  destruct (extractOne_result_is_key d q w m s k w1 Hrun) as (Hin & v & Hget & Hlook).
  pose proof (extractOne_text _ _ _ _ _ Hrun) as (l1 & l2 & Hsplit & -> & _ & H1 & H2).
  rewrite get_player_id_fuzzy_text, Hrun.
  split_and!.
  - done.
  - intros c Hc. rewrite Hsplit in Hc.
    apply elem_of_app in Hc as [Hc|[Hc|Hc]%elem_of_cons].
    + apply Qlt_le_weak. auto.
    + simplify_eq. apply Qle_refl.
    + auto.
  - intros Hge. split; [apply score_range|]. exists v. split; [done|].
    assert (Qle_bool 80 (RapidFuzz.score q m) = true) as ->; [|done].
    by apply Qle_bool_iff.
  - intros Hlt.
    assert (Qle_bool 80 (RapidFuzz.score q m) = false) as ->; [|done].
    apply not_true_iff_false. intros H%Qle_bool_iff. lra.
Qed.

(** Against a registry whose names are text or null, with at least one
    text name, the resolver returns for every text mention, and returns the
    null result when every score is below 80; applied to a column of text or
    null mentions it returns one result per mention. *)
Theorem resolver_never_raises (d : Dict.t cell cell) :
  (∃ c, Str c ∈ Dict.keys d) →
  (∀ z, Num z ∉ Dict.keys d) →
  (∀ q w, ∃ v w',
     get_player_id_fuzzy d (Str q) w = (inr v, w') ∧
     ((∀ c, Str c ∈ Dict.keys d → (RapidFuzz.score q c < 80)%Q) → v = NaN)) ∧
  (∀ mentions w,
     (∀ z, Num z ∉ mentions) →
     ∃ ids w', Pandas.apply (get_player_id_fuzzy d) mentions w = (inr ids, w') ∧
               length ids = length mentions).
Proof.
  intros [c0 Hc0] Hnum.
  assert (∀ q w, ∃ v w',
     get_player_id_fuzzy d (Str q) w = (inr v, w') ∧
     ((∀ c, Str c ∈ Dict.keys d → (RapidFuzz.score q c < 80)%Q) → v = NaN))
    as Htext.
  { intros q w.
    destruct (extractOne_loop_total RapidFuzz.token_sort_ratio q (Dict.keys d)
                0 Process.worst_score None w Hnum) as (r & w1 & Hrun).
    change (Process.extractOne (Str q) (Dict.keys d) RapidFuzz.token_sort_ratio w
              = (inr r, w1)) in Hrun.
    pose proof (extractOne_text _ _ _ _ _ Hrun) as Hr.
    destruct r as [[[m s] k]|]; [|by apply Hr in Hc0].
    destruct (threshold_cases d q w m s k w1 Hrun)
      as [(Hge & v & Hv)|(Hlt & Hv)].
    - exists v, w1. split; [done|]. intros Hall.
      destruct (extractOne_result_is_key d q w m s k w1 Hrun) as (Hin & _).
      destruct Hr as (l1 & l2 & _ & -> & _). apply Hall in Hin. lra.
    - exists NaN, w1. done. }
  split; [done|].
  assert (∀ mentions w, (∀ z, Num z ∉ mentions) →
            ∃ results w', Pandas.map_each (get_player_id_fuzzy d) mentions w
                            = (inr results, w') ∧
                          length results = length mentions) as Hloop.
  { intros mentions. induction mentions as [|x rest IH]; intros w Hm; simpl.
    { by exists [], w. }
    unfold mbind, M_bind.
    assert (∃ v w1, get_player_id_fuzzy d x w = (inr v, w1)) as (v & w1 & ->).
    { destruct x as [|q|z].
      - by exists NaN, w.
      - destruct (Htext q w) as (v & w1 & Hv & _). eauto.
      - exfalso. apply (Hm z). by left. }
    destruct (IH w1) as (ids & w2 & -> & Hlen).
    { intros z Hz. apply (Hm z). by right. }
    exists (v :: ids), w2. simpl. by rewrite Hlen. }
  intros mentions w Hm. destruct (Hloop mentions w Hm) as (results & w' & Hrun & Hlen).
  exists (Pandas.maybe_convert_objects results), w'.
  unfold Pandas.apply, mbind, M_bind. rewrite Hrun.
  split; [done|]. by rewrite maybe_convert_objects_length.
Qed.

(** C4.  The registry dict is built from the rows [rows] of the registry
    file in load order.  When [m] is the first name in load order that
    reaches the greatest score (every text name before it scores strictly
    less, every one after it at most as much, so that later names may tie
    with it), the search selects [m], and the resolver returns the identifier
    the registry holds for [m] when that score is at least 80, and the null
    result otherwise.  The result does not depend on the world, so resolving
    again gives the same. *)
Theorem tie_break_first_in_load_order (rows : list (cell * cell)) q m l1 l2 w :
  rows.*1 = l1 ++ Str m :: l2 →
  (∀ z, Num z ∉ rows.*1) →
  (∀ c, Str c ∈ l1 → (RapidFuzz.score q c < RapidFuzz.score q m)%Q) →
  (∀ c, Str c ∈ l2 → (RapidFuzz.score q c <= RapidFuzz.score q m)%Q) →
  ∃ v k w1,
    Dict.get (Dict.of_pairs rows) (Str m) = Some v ∧
    Process.extractOne (Str q) (Dict.keys (Dict.of_pairs rows))
      RapidFuzz.token_sort_ratio w
      = (inr (Some (m, RapidFuzz.score q m, k)), w1) ∧
    ((80 <= RapidFuzz.score q m)%Q →
       get_player_id_fuzzy (Dict.of_pairs rows) (Str q) w = (inr v, w1)) ∧
    ((RapidFuzz.score q m < 80)%Q →
       get_player_id_fuzzy (Dict.of_pairs rows) (Str q) w = (inr NaN, w1)) ∧
    (∀ w2, (get_player_id_fuzzy (Dict.of_pairs rows) (Str q) w2).1
           = (get_player_id_fuzzy (Dict.of_pairs rows) (Str q) w).1).
Proof.
  intros Hrows Hnum Hbefore Hafter.
  destruct (keys_of_pairs rows) as [Hel Hord].
  assert (∀ c, Str c ∈ rows.*1 → (RapidFuzz.score q c <= RapidFuzz.score q m)%Q)
    as Hmax.
  { intros c Hc. rewrite Hrows in Hc.
    apply elem_of_app in Hc as [Hc|[Hc|Hc]%elem_of_cons].
    - apply Qlt_le_weak. auto.
    - simplify_eq. apply Qle_refl.
    - auto. }
  assert (Str m ∈ rows.*1) as Hm.
  { rewrite Hrows. apply elem_of_app. right. by left. }
  destruct (extractOne_loop_total RapidFuzz.token_sort_ratio q
              (Dict.keys (Dict.of_pairs rows)) 0 Process.worst_score None w)
    as (r & w1 & Hrun).
  { intros z Hz. apply (Hnum z). by apply Hel. }
  change (Process.extractOne (Str q) (Dict.keys (Dict.of_pairs rows))
            RapidFuzz.token_sort_ratio w = (inr r, w1)) in Hrun.
  pose proof (extractOne_text _ _ _ _ _ Hrun) as Hr.
  destruct r as [[[m' s] k]|]; [|by apply Hel, Hr in Hm].
  destruct Hr as (k1 & k2 & Hkeys & -> & _ & Hlt & Hle).
  destruct (Hord _ _ _ Hkeys) as (l1' & l2' & Hrows' & Hnin & Hpre).
  assert (∀ c, Str c ∈ rows.*1 → (RapidFuzz.score q c <= RapidFuzz.score q m')%Q)
    as Hmax'.
  { intros c Hc%Hel. rewrite Hkeys in Hc.
    apply elem_of_app in Hc as [Hc|[Hc|Hc]%elem_of_cons].
    - apply Qlt_le_weak. auto.
    - simplify_eq. apply Qle_refl.
    - auto. }
  assert (Str m' ∈ rows.*1) as Hm'.
  { rewrite Hrows'. apply elem_of_app. right. by left. }
  pose proof (Hmax _ Hm') as Hle1. pose proof (Hmax' _ Hm) as Hle2.
  assert (m' = m) as ->.
  { assert (rows.*1 !! length l1 = Some (Str m)) as Hat.
    { by rewrite Hrows, list_lookup_middle. }
    assert (rows.*1 !! length l1' = Some (Str m')) as Hat'.
    { by rewrite Hrows', list_lookup_middle. }
    destruct (lt_eq_lt_dec (length l1) (length l1')) as [[Hcmp|Hcmp]|Hcmp].
    - rewrite Hrows', lookup_app_l in Hat by done.
      apply list_elem_of_lookup_2, Hpre, Hlt in Hat. lra.
    - rewrite Hcmp, Hat' in Hat. by simplify_eq.
    - rewrite Hrows, lookup_app_l in Hat' by done.
      apply list_elem_of_lookup_2, Hbefore in Hat'. lra. }
  destruct (extractOne_result_is_key _ q w m _ k w1 Hrun) as (_ & v & Hget & Hlook).
  exists v, k, w1. split_and!; [done|done| | |].
  - intros Hge. rewrite get_player_id_fuzzy_text, Hrun.
    assert (Qle_bool 80 (RapidFuzz.score q m) = true) as ->; [|done].
    by apply Qle_bool_iff.
  - intros Hlow. rewrite get_player_id_fuzzy_text, Hrun.
    assert (Qle_bool 80 (RapidFuzz.score q m) = false) as ->; [|done].
    apply not_true_iff_false. intros H%Qle_bool_iff. lra.
  - intros w2.
    destruct (get_player_id_fuzzy_effects (Dict.of_pairs rows) (Str q))
      as (_ & Hst & _).
    apply Hst.
Qed.

(** C7.  The score depends on each argument only through its tokens up to
    order; in particular "John Smith" scores the same against "Smith John"
    as against itself; a string scores 100 against itself; every score lies
    between 0 and 100. *)
Theorem token_order_invariance :
  (∀ a a' b b' score_cutoff,
     Str.split a ≡ₚ Str.split a' → Str.split b ≡ₚ Str.split b' →
     RapidFuzz.token_sort_ratio a b score_cutoff
       = RapidFuzz.token_sort_ratio a' b' score_cutoff) ∧
  RapidFuzz.score "John Smith" "Smith John"
    = RapidFuzz.score "John Smith" "John Smith" ∧
  (∀ s, (RapidFuzz.score s s == 100)%Q) ∧
  (∀ a b, (0 <= RapidFuzz.score a b <= 100)%Q).
Proof.
  assert (∀ a a' b b' score_cutoff,
     Str.split a ≡ₚ Str.split a' → Str.split b ≡ₚ Str.split b' →
     RapidFuzz.token_sort_ratio a b score_cutoff
       = RapidFuzz.token_sort_ratio a' b' score_cutoff) as Hperm.
  { intros a a' b b' score_cutoff Ha Hb. unfold RapidFuzz.token_sort_ratio.
    by rewrite (sorted_Permutation _ _ Ha), (sorted_Permutation _ _ Hb). }
  split_and!; [done| |apply score_identical|apply score_range].
  apply Hperm; [done|]. vm_compute. apply perm_swap.
Qed.

(** ** The pipeline *)

Lemma fotos_path_fresh today :
  fotos_path today ≠ predictions_path today ∧ fotos_path today ≠ players_csv_path.
Proof.
  unfold fotos_path, predictions_path, players_csv_path. split.
  - intros H. apply (inj (String.app _)) in H. apply (inj (String.app _)) in H.
    discriminate.
  - intros H. discriminate.
Qed.

Lemma get_predictions_run today w :
  get_predictions today w =
  match files w !! predictions_path today with
  | None => (inl (HTTPException 404 "Predictions not available yet"), w)
  | Some df_pred =>
      match files w !! players_csv_path with
      | None => (inl (HTTPException 500 "Players CSV not found"), w)
      | Some df_players =>
          match resolve_all df_pred df_players w with
          | (inl e, w') => (inl e, w')
          | (inr player_ids, w') =>
              (inr (Pandas.to_dict (Pandas.setitem df_pred "player_id" player_ids)),
               {| files := <[fotos_path today :=
                               Pandas.setitem df_pred "player_id" player_ids]> (files w');
                  scorer_calls := scorer_calls w' |})
          end
      end
  end.
Proof.
  unfold get_predictions, resolve_all, mbind, M_bind, Pandas.path_exists,
    Pandas.read_csv, Pandas.to_csv.
  destruct (files w !! predictions_path today) as [df_pred|] eqn:E1; simpl;
    [|reflexivity].
  destruct (files w !! players_csv_path) as [df_players|] eqn:E2; simpl;
    [|reflexivity].
  rewrite E1, E2.
  destruct (build_player_name_to_id df_players w) as [[e|d] w1]; [reflexivity|].
  destruct (Pandas.getitem df_pred "player_" w1) as [[e|mentions] w2];
    [reflexivity|].
  destruct (Pandas.apply _ mentions w2) as [[e|ids] w3]; reflexivity.
Qed.


Lemma getitem_effects df label :
  quiet (Pandas.getitem df label) ∧ stateless (Pandas.getitem df label).
Proof.
  unfold Pandas.getitem. destruct (Dict.get _ _); split; auto with effects.
Qed.

Lemma build_player_name_to_id_effects df_players :
  quiet (build_player_name_to_id df_players) ∧
  stateless (build_player_name_to_id df_players).
Proof.
  unfold build_player_name_to_id. split.
  - apply quiet_bind; [apply getitem_effects|]. intros names.
    apply quiet_bind; [apply getitem_effects|]. intros ids. apply quiet_ret.
  - apply stateless_bind; [apply getitem_effects|]. intros names.
    apply stateless_bind; [apply getitem_effects|]. intros ids. apply stateless_ret.
Qed.

Lemma resolve_all_effects df_pred df_players :
  quiet (resolve_all df_pred df_players) ∧ stateless (resolve_all df_pred df_players).
Proof.
  unfold resolve_all. split.
  - apply quiet_bind; [apply build_player_name_to_id_effects|]. intros d.
    apply quiet_bind; [apply getitem_effects|]. intros ms. apply apply_effects.
  - apply stateless_bind; [apply build_player_name_to_id_effects|]. intros d.
    apply stateless_bind; [apply getitem_effects|]. intros ms. apply apply_effects.
Qed.

Section frames.
Import Pandas.
Implicit Types (df : DataFrame) (label : string) (values : list cell).








End frames.














Lemma get_predictions_cases today w :
  (∃ e w', get_predictions today w = (inl e, w') ∧ files w' = files w)
  ∨ (∃ df_pred df_players ids w',
       files w !! predictions_path today = Some df_pred ∧
       files w !! players_csv_path = Some df_players ∧
       (resolve_all df_pred df_players w).1 = inr ids ∧
       get_predictions today w
         = (inr (Pandas.to_dict (Pandas.setitem df_pred "player_id" ids)), w') ∧
       files w' = <[fotos_path today := Pandas.setitem df_pred "player_id" ids]>
                    (files w)).
Proof.
  rewrite get_predictions_run.
  destruct (files w !! predictions_path today) as [df_pred|]; [|left; eauto].
  destruct (files w !! players_csv_path) as [df_players|]; [|left; eauto].
  destruct (resolve_all_effects df_pred df_players) as [Hq _]. specialize (Hq w).
  destruct (resolve_all df_pred df_players w) as [[e|ids] w1] eqn:Hres; simpl in *.
  - left. eauto.
  - right. exists df_pred, df_players, ids.
    exists {| files := <[fotos_path today :=
                          Pandas.setitem df_pred "player_id" ids]> (files w1);
              scorer_calls := scorer_calls w1 |}.
    rewrite Hres. split_and!; [done..|]. simpl. by rewrite Hq.
Qed.

(** C5, as amended.  A missing mention batch fails the run with HTTP 404
    "Predictions not available yet"; with the batch present, a missing
    registry fails it with HTTP 500 "Players CSV not found".  Either failure
    is returned to the caller with the world untouched, and no run that
    fails changes any file. *)
Theorem missing_input_fails today w :
  (files w !! predictions_path today = None →
   get_predictions today w
     = (inl (HTTPException 404 "Predictions not available yet"), w)) ∧
  (is_Some (files w !! predictions_path today) →
   files w !! players_csv_path = None →
   get_predictions today w = (inl (HTTPException 500 "Players CSV not found"), w)) ∧
  (∀ e w', get_predictions today w = (inl e, w') → files w' = files w).
Proof.
  split_and!.
  - intros Hpred. by rewrite get_predictions_run, Hpred.
  - intros [df Hpred] Hplayers. by rewrite get_predictions_run, Hpred, Hplayers.
  - intros e w' Hrun.
    destruct (get_predictions_cases today w)
      as [(e0 & w0 & Hfail & Hfiles)|(? & ? & ? & w0 & _ & _ & _ & Hok & _)];
      rewrite Hrun in *; by simplify_eq.
Qed.

Lemma get_predictions_inputs today wa wb :
  files wa !! predictions_path today = files wb !! predictions_path today →
  files wa !! players_csv_path = files wb !! players_csv_path →
  (get_predictions today wa).1 = (get_predictions today wb).1.
Proof.
  intros Hpred Hplayers. rewrite !get_predictions_run, Hpred, Hplayers.
  destruct (files wb !! predictions_path today) as [df_pred|]; [|done].
  destruct (files wb !! players_csv_path) as [df_players|]; [|done].
  destruct (resolve_all_effects df_pred df_players) as [_ Hs]. specialize (Hs wa wb).
  destruct (resolve_all df_pred df_players wa) as [[e1|ids1] w1],
    (resolve_all df_pred df_players wb) as [[e2|ids2] w2]; by simplify_eq/=.
Qed.

(** C8.  The records a run returns are determined by the two input files;
    and running again in the world the first run left behind returns the
    same records and leaves every file as the first run left it. *)
Theorem rerun_identical today :
  (∀ wa wb,
     files wa !! predictions_path today = files wb !! predictions_path today →
     files wa !! players_csv_path = files wb !! players_csv_path →
     (get_predictions today wa).1 = (get_predictions today wb).1) ∧
  (∀ w,
     (get_predictions today (get_predictions today w).2).1
       = (get_predictions today w).1 ∧
     files (get_predictions today (get_predictions today w).2).2
       = files (get_predictions today w).2).
Proof.
  split; [apply get_predictions_inputs|]. intros w.
  destruct (fotos_path_fresh today) as [Hne1 Hne2].
  destruct (get_predictions_cases today w)
    as [(e & w1 & Hrun & Hfiles)
       |(df_pred & df_players & ids & w1 & Hpred & Hplayers & Hres & Hrun & Hfiles)];
    rewrite Hrun; simpl.
  - assert ((get_predictions today w1).1 = inl e) as Hagain.
    { rewrite (get_predictions_inputs today w1 w), Hrun by (by rewrite Hfiles). done. }
    split; [done|].
    destruct (get_predictions_cases today w1)
      as [(e' & w2 & Hrun2 & Hfiles2)|(? & ? & ? & w2 & _ & _ & _ & Hrun2 & _)];
      rewrite Hrun2 in *; by simplify_eq/=.
  - assert (files w1 !! predictions_path today = Some df_pred) as Hpred1.
    { by rewrite Hfiles, lookup_insert_ne. }
    assert (files w1 !! players_csv_path = Some df_players) as Hplayers1.
    { by rewrite Hfiles, lookup_insert_ne. }
    assert ((get_predictions today w1).1 = (get_predictions today w).1) as Hagain.
    { apply get_predictions_inputs; congruence. }
    rewrite Hrun in Hagain. split; [done|].
    destruct (get_predictions_cases today w1)
      as [(e' & w2 & Hrun2 & Hfiles2)
         |(df' & dfp' & ids' & w2 & Hpred2 & Hplayers2 & Hres2 & Hrun2 & Hfiles2)];
      rewrite Hrun2 in *; simpl in *; [done|].
    simplify_eq.
    destruct (resolve_all_effects df_pred df_players) as [_ Hs].
    rewrite (Hs w1 w), Hres in Hres2. simplify_eq.
    by rewrite Hfiles2, Hfiles, insert_insert_eq.
Qed.

(** ** Concrete runs *)

Lemma null_mention_unresolved_witness :
  get_player_id_fuzzy sample_registry NaN world0 = (inr NaN, world0).
Proof. apply (null_mention_unresolved sample_registry). Defined.



Lemma threshold_inclusive_witness :
  Process.extractOne (Str "abcdx") (Dict.keys boundary_registry)
    RapidFuzz.token_sort_ratio world0
  = (inr (Some ("abcde", RapidFuzz.score "abcdx" "abcde", 0%nat)),
     (Process.extractOne (Str "abcdx") (Dict.keys boundary_registry)
        RapidFuzz.token_sort_ratio world0).2) ∧
  (RapidFuzz.score "abcdx" "abcde" == 80)%Q ∧
  ∃ v, Dict.get boundary_registry (Str "abcde") = Some v ∧
       get_player_id_fuzzy boundary_registry (Str "abcdx") world0
       = (inr v, (Process.extractOne (Str "abcdx") (Dict.keys boundary_registry)
                    RapidFuzz.token_sort_ratio world0).2).
Proof.
  assert (Process.extractOne (Str "abcdx") (Dict.keys boundary_registry)
            RapidFuzz.token_sort_ratio world0
          = (inr (Some ("abcde", RapidFuzz.score "abcdx" "abcde", 0%nat)),
             (Process.extractOne (Str "abcdx") (Dict.keys boundary_registry)
                RapidFuzz.token_sort_ratio world0).2)) as Hrun.
  { vm_compute. reflexivity. }
  split; [exact Hrun|]. split; [vm_compute; reflexivity|].
  apply (threshold_inclusive boundary_registry "abcdx" world0 "abcde" _ 0%nat _ Hrun).
  vm_compute. discriminate.
Defined.

Lemma tie_break_first_in_load_order_witness :
  tied_accepted_rows.*1 = [] ++ Str "abcde" :: [Str "abcdf"] ∧
  (RapidFuzz.score "abcdx" "abcdf" == RapidFuzz.score "abcdx" "abcde")%Q ∧
  (get_player_id_fuzzy (Dict.of_pairs tied_accepted_rows) (Str "abcdx") world0).1
  = inr (Num 7).
Proof.
  assert (tied_accepted_rows.*1 = [] ++ Str "abcde" :: [Str "abcdf"]) as H1
    by reflexivity.
  assert (∀ z, Num z ∉ tied_accepted_rows.*1) as H2.
  { intros z Hz. vm_compute in Hz.
    apply elem_of_cons in Hz as [?|Hz]; [done|].
    apply elem_of_cons in Hz as [?|Hz]; [done|]. by apply elem_of_nil in Hz. }
  assert (∀ c, Str c ∈ ([] : list cell) →
               (RapidFuzz.score "abcdx" c < RapidFuzz.score "abcdx" "abcde")%Q)
    as H3.
  { intros c Hc. by apply elem_of_nil in Hc. }
  assert (∀ c, Str c ∈ [Str "abcdf"] →
               (RapidFuzz.score "abcdx" c <= RapidFuzz.score "abcdx" "abcde")%Q)
    as H4.
  { intros c Hc. apply list_elem_of_singleton in Hc. injection Hc as ->.
    vm_compute. discriminate. }
  split; [exact H1|]. split; [vm_compute; reflexivity|].
  destruct (tie_break_first_in_load_order tied_accepted_rows "abcdx" "abcde"
              [] [Str "abcdf"] world0 H1 H2 H3 H4)
    as (v & k & w1 & Hget & _ & Hge & _ & _).
  rewrite Hge; [|vm_compute; discriminate].
  vm_compute in Hget. injection Hget as <-. reflexivity.
Defined.

Lemma resolver_never_raises_witness :
  (∃ c, Str c ∈ Dict.keys sample_registry) ∧
  (∀ z, Num z ∉ Dict.keys sample_registry) ∧
  ∃ v w', get_player_id_fuzzy sample_registry (Str "Zidane") world0 = (inr v, w') ∧
          ((∀ c, Str c ∈ Dict.keys sample_registry →
                 (RapidFuzz.score "Zidane" c < 80)%Q) → v = NaN).
Proof.
  assert (∃ c, Str c ∈ Dict.keys sample_registry) as H1.
  { exists "Lionel Messi". vm_compute. by left. }
  assert (∀ z, Num z ∉ Dict.keys sample_registry) as H2.
  { intros z Hz. vm_compute in Hz.
    apply elem_of_cons in Hz as [?|Hz]; [done|].
    apply elem_of_cons in Hz as [?|Hz]; [done|]. by apply elem_of_nil in Hz. }
  split; [exact H1|]. split; [exact H2|].
  apply (resolver_never_raises sample_registry H1 H2).
Defined.

(** C6.  The claim fails on the code for a registry without names: the
    search returns [None] and unpacking it raises [TypeError], in the
    resolver and so in the whole run, which returns no batch and writes no
    file; against a registry with names the same unmatched mention gets the
    null result. *)
Theorem empty_registry_raises :
  get_player_id_fuzzy [] (Str "Zidane") world0 = (inl TypeError, world0) ∧
  get_predictions "2025-01-01" world_empty_registry
  = (inl TypeError, world_empty_registry) ∧
  (get_player_id_fuzzy sample_registry (Str "Zidane") world0).1 = inr NaN.
Proof. split_and!; vm_compute; reflexivity. Qed.

Lemma token_order_invariance_witness :
  Str.split "Smith John" ≡ₚ Str.split "John Smith" ∧
  RapidFuzz.token_sort_ratio "Smith John" "Lionel Messi" 0
  = RapidFuzz.token_sort_ratio "John Smith" "Lionel Messi" 0.
Proof.
  assert (Str.split "Smith John" ≡ₚ Str.split "John Smith") as Hp.
  { vm_compute. apply perm_swap. }
  split; [exact Hp|]. by apply token_order_invariance.
Defined.





Lemma missing_input_fails_witness :
  files empty_world !! predictions_path "2025-01-01" = None ∧
  get_predictions "2025-01-01" empty_world
  = (inl (HTTPException 404 "Predictions not available yet"), empty_world).
Proof.
  assert (files empty_world !! predictions_path "2025-01-01" = None) as H1.
  { vm_compute. reflexivity. }
  split; [exact H1|].
  exact (proj1 (missing_input_fails "2025-01-01" empty_world) H1).
Defined.

(** C5 as stated fails: the two missing inputs give two different
    failures, not one signal. *)
Lemma two_failure_signals :
  ¬ ∃ e, ∀ today w,
      files w !! predictions_path today = None ∨ files w !! players_csv_path = None →
      (get_predictions today w).1 = inl e.
Proof.
  intros [e He].
  pose proof (He "2025-01-01" empty_world) as Ha.
  pose proof (He "2025-01-01" world_no_registry) as Hb.
  assert ((get_predictions "2025-01-01" empty_world).1
          = inl (HTTPException 404 "Predictions not available yet")) as Ea
    by (vm_compute; reflexivity).
  assert ((get_predictions "2025-01-01" world_no_registry).1
          = inl (HTTPException 500 "Players CSV not found")) as Eb
    by (vm_compute; reflexivity).
  rewrite Ea in Ha. rewrite Eb in Hb.
  assert (e = HTTPException 404 "Predictions not available yet") as ->.
  { assert (inl (HTTPException 404 "Predictions not available yet")
            = (inl e : exn + list (list (string * cell)))) as Heq
      by (apply Ha; left; vm_compute; reflexivity).
    by injection Heq. }
  assert (inl (HTTPException 500 "Players CSV not found")
          = (inl (HTTPException 404 "Predictions not available yet")
             : exn + list (list (string * cell)))) as Heq
    by (apply Hb; right; vm_compute; reflexivity).
  discriminate Heq.
Qed.

Lemma rerun_identical_witness :
  (get_predictions "2025-01-01" (get_predictions "2025-01-01" world0).2).1
  = (get_predictions "2025-01-01" world0).1 ∧
  files (get_predictions "2025-01-01" (get_predictions "2025-01-01" world0).2).2
  = files (get_predictions "2025-01-01" world0).2.
Proof. apply (rerun_identical "2025-01-01"). Defined.

(** * Further properties of the endpoints *)

(** ** [get_predictions]: files and errors *)

Lemma labels_setitem df label values :
  Pandas.labels (Pandas.setitem df label values) =
  if bool_decide (label ∈ Pandas.labels df) then Pandas.labels df
  else Pandas.labels df ++ [label].
Proof.
  unfold Pandas.labels, Pandas.setitem. simpl.
  destruct (bool_decide _); [|by rewrite fmap_app].
  rewrite <- list_fmap_compose. apply list_fmap_ext.
  intros _ [k vs] _. simpl. by destruct (decide (k = label)).
Qed.

(** A run changes no file other than [results/predictions_<today>_fotos.csv],
    whether it succeeds or fails; that path is neither of the two inputs nor
    the fixtures file of any day. *)
Theorem only_fotos_written today w :
  (∀ path, path ≠ fotos_path today →
     files (get_predictions today w).2 !! path = files w !! path) ∧
  fotos_path today ≠ predictions_path today ∧
  fotos_path today ≠ players_csv_path ∧
  (∀ day, fotos_path today ≠ fixtures_path day).
Proof.
  destruct (fotos_path_fresh today) as [Hne1 Hne2].
  split_and!; [|done..|].
  - intros path Hpath.
    destruct (get_predictions_cases today w)
      as [(e & w1 & Hrun & Hfiles)|(? & ? & ? & w1 & _ & _ & _ & Hrun & Hfiles)];
      rewrite Hrun; simpl; rewrite Hfiles; [done|].
    by rewrite lookup_insert_ne.
  - intros day H. unfold fotos_path, fixtures_path in H. discriminate.
Qed.

(** On success the list returned to the caller is exactly the content of the
    file the run has written: that file holds a frame with as many rows as
    the input batch, every column label of the input and the label
    [player_id], and the response is its list of records. *)
Theorem response_is_persisted today w out w' :
  get_predictions today w = (inr out, w') →
  ∃ df_pred df',
    files w !! predictions_path today = Some df_pred ∧
    files w' !! fotos_path today = Some df' ∧
    out = Pandas.to_dict df' ∧
    index df' = index df_pred ∧
    "player_id" ∈ Pandas.labels df' ∧
    (∀ label, label ∈ Pandas.labels df_pred → label ∈ Pandas.labels df').
Proof.
  intros Hrun.
  destruct (get_predictions_cases today w)
    as [(e & w1 & Hrun' & _)
       |(df_pred & df_players & ids & w1 & Hpred & _ & _ & Hrun' & Hfiles)];
    rewrite Hrun in Hrun'; simplify_eq.
  exists df_pred, (Pandas.setitem df_pred "player_id" ids).
  split_and!; [done| |done|done| |].
  - by rewrite Hfiles, lookup_insert_eq.
  - rewrite labels_setitem. case_bool_decide; [done|].
    apply elem_of_app. right. by left.
  - intros label Hl. rewrite labels_setitem. case_bool_decide; [done|].
    apply elem_of_app. by left.
Qed.

(** With both files present, a missing column raises [KeyError] naming it,
    in the order the code reads the columns: [player_name] and [player_id]
    of the registry first, then [player_] of the batch.  The world is left
    as it was. *)
Theorem missing_column_raises today w df_pred df_players :
  files w !! predictions_path today = Some df_pred →
  files w !! players_csv_path = Some df_players →
  (Dict.get (columns df_players) "player_name" = None →
   get_predictions today w = (inl (KeyError (Str "player_name")), w)) ∧
  (is_Some (Dict.get (columns df_players) "player_name") →
   Dict.get (columns df_players) "player_id" = None →
   get_predictions today w = (inl (KeyError (Str "player_id")), w)) ∧
  (is_Some (Dict.get (columns df_players) "player_name") →
   is_Some (Dict.get (columns df_players) "player_id") →
   Dict.get (columns df_pred) "player_" = None →
   get_predictions today w = (inl (KeyError (Str "player_")), w)).
Proof.
  intros Hpred Hplayers. rewrite get_predictions_run, Hpred, Hplayers.
  unfold resolve_all, build_player_name_to_id, Pandas.getitem, mbind, M_bind.
  split_and!.
  - by intros ->.
  - by intros [names ->] ->.
  - by intros [names ->] [ids ->] ->.
Qed.

Lemma fmap_astype_null float (l : list cell) :
  Forall (λ x, x = NaN) l → Pandas.astype float <$> l = l.
Proof.
  induction 1 as [|x rest -> _ IH]; csimpl; [done|].
  by rewrite IH, astype_null.
Qed.

Lemma apply_all_null (d : Dict.t cell cell) mentions w :
  Forall (λ x, x = NaN) mentions →
  Pandas.apply (get_player_id_fuzzy d) mentions w = (inr mentions, w).
Proof.
  intros Hnull.
  assert (Pandas.map_each (get_player_id_fuzzy d) mentions w = (inr mentions, w))
    as Hloop.
  { induction Hnull as [|x rest -> _ IH]; simpl; [done|].
    unfold mbind, M_bind. simpl. by rewrite IH. }
  unfold Pandas.apply, mbind, M_bind. rewrite Hloop.
  unfold Pandas.maybe_convert_objects. by rewrite fmap_astype_null.
Qed.

(** A batch without any text mention (an empty batch, or one whose mentions
    are all null) never consults the registry: whatever the registry's rows
    are, even none, the run succeeds, gives every record a null
    [player_id], invokes the scorer not once, and writes the file. *)
Theorem null_batch_succeeds today w df_pred df_players mentions :
  files w !! predictions_path today = Some df_pred →
  files w !! players_csv_path = Some df_players →
  is_Some (Dict.get (columns df_players) "player_name") →
  is_Some (Dict.get (columns df_players) "player_id") →
  Dict.get (columns df_pred) "player_" = Some mentions →
  Forall (λ x, x = NaN) mentions →
  ∃ w',
    get_predictions today w
      = (inr (Pandas.to_dict (Pandas.setitem df_pred "player_id" mentions)), w') ∧
    scorer_calls w' = scorer_calls w ∧
    files w' = <[fotos_path today := Pandas.setitem df_pred "player_id" mentions]>
                 (files w).
Proof.
  intros Hpred Hplayers [names Hn] [ids Hi] Hm Hnull.
  rewrite get_predictions_run, Hpred, Hplayers.
  unfold resolve_all, build_player_name_to_id, Pandas.getitem, mbind, M_bind.
  rewrite Hn, Hi, Hm. simpl. rewrite (apply_all_null _ _ _ Hnull).
  eexists. split_and!; reflexivity.
Qed.

(** ** [get_player_id_fuzzy]: matching *)

(** A mention spelled exactly as a registry name is always resolved: against
    a registry whose names are text or null, the resolver returns the
    identifier the registry holds for a name that scores 100. *)
Theorem exact_name_resolved (d : Dict.t cell cell) q w :
  Str q ∈ Dict.keys d →
  (∀ z, Num z ∉ Dict.keys d) →
  ∃ m v w',
    get_player_id_fuzzy d (Str q) w = (inr v, w') ∧
    Str m ∈ Dict.keys d ∧ Dict.get d (Str m) = Some v ∧
    (RapidFuzz.score q m == 100)%Q.
Proof.
  intros Hq Hnum.
  destruct (extractOne_loop_total RapidFuzz.token_sort_ratio q (Dict.keys d)
              0 Process.worst_score None w Hnum) as (r & w1 & Hrun).
  change (Process.extractOne (Str q) (Dict.keys d) RapidFuzz.token_sort_ratio w
            = (inr r, w1)) in Hrun.
  pose proof (extractOne_text _ _ _ _ _ Hrun) as Hr.
  destruct r as [[[m s] k]|]; [|by apply Hr in Hq].
  destruct Hr as (l1 & l2 & Hsplit & -> & _ & Hlt & Hle).
  pose proof (score_identical q) as Hqq. pose proof (score_range q m) as [_ Hm].
  assert (RapidFuzz.score q m == 100)%Q as H100.
  { rewrite Hsplit in Hq.
    apply elem_of_app in Hq as [Hq|[Hq|Hq]%elem_of_cons].
    - apply Hlt in Hq. lra.
    - by simplify_eq.
    - apply Hle in Hq. lra. }
  destruct (extractOne_result_is_key d q w m _ k w1 Hrun) as (Hin & v & Hget & Hlook).
  exists m, v, w1. split_and!; [|done..].
  rewrite get_player_id_fuzzy_text, Hrun.
  assert (Qle_bool 80 (RapidFuzz.score q m) = true) as ->; [|done].
  apply Qle_bool_iff. lra.
Qed.

Lemma of_pairs_snoc {K V} `{EqDecision K} (pairs : list (K * V)) k v :
  Dict.of_pairs (pairs ++ [(k, v)]) = Dict.setitem (Dict.of_pairs pairs) k v.
Proof. unfold Dict.of_pairs. by rewrite fold_left_app. Qed.

(** The value [dict(pairs)] holds for a key is the value of the last pair
    with that key. *)
Lemma get_of_pairs_last {K V} `{EqDecision K} (pairs : list (K * V)) k v :
  Dict.get (Dict.of_pairs pairs) k = Some v →
  ∃ l1 l2, pairs = l1 ++ (k, v) :: l2 ∧ k ∉ l2.*1.
Proof.
  induction pairs as [|[k' v'] pairs IH] using rev_ind; [done|].
  rewrite of_pairs_snoc, get_setitem.
  destruct (decide (k' = k)) as [->|Hne].
  - intros [= ->]. exists pairs, []. split; [done|]. by intros ?%elem_of_nil.
  - intros (l1 & l2 & -> & Hnin)%IH. exists l1, (l2 ++ [(k', v')]).
    split; [by rewrite <- (assoc_L (++))|].
    rewrite fmap_app. intros [?|?%list_elem_of_singleton]%elem_of_app; [done|].
    simpl in *. congruence.
Qed.

(** When the registry file names a player in several rows, the identifier
    of the last such row is the one attached: a non-null result of the
    resolver is the identifier of a row that no later row with the same name
    follows. *)
Theorem resolved_id_from_last_row (rows : list (cell * cell)) name w v w' :
  get_player_id_fuzzy (Dict.of_pairs rows) name w = (inr v, w') →
  v ≠ NaN →
  ∃ m l1 l2, rows = l1 ++ (Str m, v) :: l2 ∧ Str m ∉ l2.*1.
Proof.
  intros Hrun Hv.
  destruct (get_player_id_fuzzy_value _ _ _ _ _ Hrun) as [?|(m & _ & Hget)]; [done|].
  apply get_of_pairs_last in Hget as (l1 & l2 & -> & Hnin). by exists m, l1, l2.
Qed.

Lemma token_sort_ratio_tokens a a' b score_cutoff :
  Str.split a ≡ₚ Str.split a' →
  RapidFuzz.token_sort_ratio a b score_cutoff
  = RapidFuzz.token_sort_ratio a' b score_cutoff.
Proof.
  intros Ha. unfold RapidFuzz.token_sort_ratio.
  by rewrite (sorted_Permutation _ _ Ha).
Qed.

Lemma extractOne_loop_ext scorer q q' choices :
  (∀ c cut, scorer q c cut = scorer q' c cut) →
  ∀ key cut result w1 w2,
    (Process.extractOne_loop scorer q choices key cut result w1).1
    = (Process.extractOne_loop scorer q' choices key cut result w2).1.
Proof.
  intros Hext.
  induction choices as [|[|c|z] rest IH]; intros key cut result w1 w2; simpl;
    [done|apply IH| |done].
  unfold mbind, M_bind, Process.call_scorer; simpl. rewrite Hext.
  destruct (Qeq_bool _ _); [done|]. apply IH.
Qed.

Lemma get_player_id_fuzzy_result (d : Dict.t cell cell) q w :
  (get_player_id_fuzzy d (Str q) w).1 =
  match (Process.extractOne (Str q) (Dict.keys d) RapidFuzz.token_sort_ratio w).1 with
  | inl e => inl e
  | inr None => inl TypeError
  | inr (Some (m, s, _)) =>
      if Qle_bool 80 s
      then match Dict.get d (Str m) with
           | Some v => inr v
           | None => inl (KeyError (Str m))
           end
      else inr NaN
  end.
Proof.
  rewrite get_player_id_fuzzy_text.
  destruct (Process.extractOne _ _ _ w) as [[e|[[[m s] k]|]] w1]; [done| |done].
  simpl. destruct (Qle_bool 80 s); [|done].
  unfold dict_getitem. by destruct (Dict.get d (Str m)).
Qed.

(** The order of the words of a mention, and the amount of white space
    around them, do not change what it resolves to: two mentions with the
    same words resolve to the same identifier, or fail alike. *)
Theorem mention_word_order_irrelevant (d : Dict.t cell cell) q q' w w' :
  Str.split q ≡ₚ Str.split q' →
  (get_player_id_fuzzy d (Str q) w).1 = (get_player_id_fuzzy d (Str q') w').1.
Proof.
  intros Hperm. rewrite !get_player_id_fuzzy_result. simpl.
  rewrite (extractOne_loop_ext RapidFuzz.token_sort_ratio q q' (Dict.keys d)
             (λ c cut, token_sort_ratio_tokens q q' c cut Hperm)
             0 Process.worst_score None w w').
  done.
Qed.

Lemma extractOne_loop_calls scorer q choices :
  ∀ key cut result w, ∃ calls,
    scorer_calls (Process.extractOne_loop scorer q choices key cut result w).2
      = scorer_calls w ++ calls ∧
    (length calls ≤ length choices)%nat ∧
    Forall (λ qc, qc.1 = q ∧ Str qc.2 ∈ choices) calls.
Proof.
  induction choices as [|[|c|z] rest IH]; intros key cut result w; simpl.
  - exists []. by rewrite app_nil_r.
  - destruct (IH (S key) cut result w) as (calls & E & Hlen & Hall).
    exists calls. split_and!; [done|lia|].
    eapply Forall_impl; [exact Hall|]. intros qc [? ?]. split; [done|by right].
  - unfold mbind, M_bind, Process.call_scorer; simpl.
    destruct (Qeq_bool _ _).
    + exists [(q, c)]. split_and!; [done|simpl; lia|].
      apply Forall_singleton. split; [done|by left].
    + match goal with |- context [Process.extractOne_loop _ _ _ ?k ?cu ?re ?w1] =>
        destruct (IH k cu re w1) as (calls & E & Hlen & Hall) end.
      exists ((q, c) :: calls). rewrite E. simpl.
      split_and!; [by rewrite <- (assoc_L (++))|lia|].
      constructor; [split; [done|by left]|].
      eapply Forall_impl; [exact Hall|]. intros qc [? ?]. split; [done|by right].
  - exists []. split_and!; [by rewrite app_nil_r|simpl; lia|constructor].
Qed.

(** Resolving one mention invokes the scorer at most once per registry name,
    each time with the mention as query and a registry name as choice. *)
Theorem scorer_calls_bounded (d : Dict.t cell cell) name w :
  ∃ calls,
    scorer_calls (get_player_id_fuzzy d name w).2 = scorer_calls w ++ calls ∧
    (length calls ≤ length (Dict.keys d))%nat ∧
    Forall (λ qc, Str qc.1 = name ∧ Str qc.2 ∈ Dict.keys d) calls.
Proof.
  destruct name as [|q|z];
    [exists []; split_and!; [by rewrite app_nil_r|simpl; lia|constructor]| |
     exists []; split_and!; [by rewrite app_nil_r|simpl; lia|constructor]].
  destruct (extractOne_loop_calls RapidFuzz.token_sort_ratio q (Dict.keys d)
              0 Process.worst_score None w) as (calls & E & Hlen & Hall).
  exists calls. split_and!; [|done|].
  - rewrite <- E, get_player_id_fuzzy_text. simpl.
    destruct (Process.extractOne_loop _ _ _ _ _ _ w) as [[e|[[[m s] k]|]] w1];
      [done| |done].
    destruct (Qle_bool 80 s); [|done].
    unfold dict_getitem. by destruct (Dict.get d (Str m)).
  - eapply Forall_impl; [exact Hall|]. intros qc [-> ?]. done.
Qed.

(** ** [init_db], [signup], [login] *)

Section auth.
Context `{!CryptContext}.
Implicit Types (table : list Sqlite.row) (d : Sqlite.db).

Lemma find_user_None table name :
  List.find (λ r, bool_decide (Sqlite.username r = name)) table = None ↔
  name ∉ Sqlite.username <$> table.
Proof.
  induction table as [|r table IH]; csimpl.
  { split; [by intros _ ?%elem_of_nil|done]. }
  rewrite not_elem_of_cons. case_bool_decide as Hr.
  - split; [done|]. intros [? _]. congruence.
  - rewrite IH. split; [by split; [congruence|]|by intros [_ ?]].
Qed.

Lemma find_user_app table table' name :
  List.find (λ r, bool_decide (Sqlite.username r = name)) (table ++ table') =
  match List.find (λ r, bool_decide (Sqlite.username r = name)) table with
  | Some r => Some r
  | None => List.find (λ r, bool_decide (Sqlite.username r = name)) table'
  end.
Proof.
  induction table as [|r table IH]; simpl; [done|]. by case_bool_decide.
Qed.

Lemma next_id_fresh table : Sqlite.next_id table ∉ Sqlite.id <$> table.
Proof.
  assert (∀ x, x ∈ Sqlite.id <$> table →
               (x ≤ foldr Z.max 0 (Sqlite.id <$> table))%Z) as Hmax.
  { induction table as [|r table IH]; csimpl; intros x.
    - by intros ?%elem_of_nil.
    - intros [->|Hx]%elem_of_cons; [lia|]. apply IH in Hx. lia. }
  intros Hin%Hmax. unfold Sqlite.next_id in Hin. lia.
Qed.

(** What [signup] does to an existing table. *)
Lemma signup_table salt name password table :
  signup salt name password (Some table) =
  if bool_decide (name ∈ Sqlite.username <$> table)
  then (inl (Raised (HTTPException 400 "❌ El usuario ya existe")), Some table)
  else (inr [("message", "✅ Usuario creado correctamente")],
        Some (table ++ [{| Sqlite.id := Sqlite.next_id table;
                           Sqlite.username := name;
                           Sqlite.password_hash := pwd_hash salt password |}])).
Proof. unfold signup. simpl. by case_bool_decide. Qed.

Lemma login_table name password table :
  login name password (Some table) =
  match List.find (λ r, bool_decide (Sqlite.username r = name)) table with
  | None => login_refused
  | Some r =>
      if pwd_verify password (Sqlite.password_hash r) then login_ok
      else login_refused
  end.
Proof.
  unfold login. simpl. destruct (List.find _ table) as [r|]; [|done].
  by destruct (pwd_verify _ _).
Qed.

(** [signup] as served on an existing table.  While the connection of an
    earlier refused signup holds the lock, it raises [OperationalError] and
    nothing changes, whether the username is free or taken.  Otherwise a
    taken username is refused with HTTP 400, the table, stored password
    included, is unchanged, and the lock is left held; a free username adds
    exactly one row after the existing ones, with that username, the hash of
    the password and a key no other row has, and leaves no lock. *)
Theorem signup_outcome salt name password table :
  serve_signup salt name password {| database := Some table; write_locked := true |}
    = (inl (SqliteError Sqlite.OperationalError),
       {| database := Some table; write_locked := true |}) ∧
  (name ∈ Sqlite.username <$> table →
   serve_signup salt name password {| database := Some table; write_locked := false |}
     = (inl (Raised (HTTPException 400 "❌ El usuario ya existe")),
        {| database := Some table; write_locked := true |})) ∧
  (name ∉ Sqlite.username <$> table →
   ∃ r, serve_signup salt name password
          {| database := Some table; write_locked := false |}
          = (inr [("message", "✅ Usuario creado correctamente")],
             {| database := Some (table ++ [r]); write_locked := false |}) ∧
        Sqlite.username r = name ∧
        Sqlite.password_hash r = pwd_hash salt password ∧
        Sqlite.id r ∉ Sqlite.id <$> table).
Proof.
  split_and!; [done| |]; intros Hname; unfold serve_signup; simpl;
    rewrite signup_table.
  - by rewrite bool_decide_eq_true_2.
  - rewrite bool_decide_eq_false_2 by done. eexists. split_and!; [done..|].
    apply next_id_fresh.
Qed.

(** [signup] keeps the constraints of the table, and the table [init_db]
    creates satisfies them: usernames and keys stay unique through any
    sequence of signups. *)
Theorem signup_keeps_constraints :
  db_ok (init_db None) ∧
  (∀ d, db_ok d → db_ok (init_db d)) ∧
  (∀ salt name password d, db_ok d → db_ok (signup salt name password d).2) ∧
  (∀ requests d, db_ok d → db_ok (signups requests d)).
Proof.
  assert (∀ salt name password d, db_ok d → db_ok (signup salt name password d).2)
    as Hstep.
  { intros salt name password [table|]; [|done]. rewrite signup_table.
    case_bool_decide as Hname; [done|]. simpl. intros [Hu Hi].
    rewrite !fmap_app. split; apply NoDup_app; split_and!; try done.
    - intros x Hx ->%list_elem_of_singleton. done.
    - apply NoDup_singleton.
    - intros x Hx ->%list_elem_of_singleton. by apply next_id_fresh in Hx.
    - apply NoDup_singleton. }
  split_and!; [split; apply NoDup_nil_2| |done|].
  { intros [table|] Hd; simpl; [done|split; apply NoDup_nil_2]. }
  intros requests. unfold signups.
  induction requests as [|r requests IH]; intros d Hd; simpl; [done|].
  apply IH, Hstep, Hd.
Qed.

Lemma select_stable salt name' password' name d r :
  Sqlite.select_user name d = inr (Some r) →
  Sqlite.select_user name (signup salt name' password' d).2 = inr (Some r).
Proof.
  destruct d as [table|]; [|done]. rewrite signup_table.
  case_bool_decide; [done|]. simpl. intros [= Hfind].
  by rewrite find_user_app, Hfind.
Qed.

(** Once a signup has succeeded, logging in with the same username and
    password succeeds, and keeps succeeding whatever signups follow, an
    attempt to register the same username with another password
    included.  This needs the password context to accept the hashes it
    makes. *)
Theorem signup_then_login salt name password d response d' requests :
  (∀ salt password, pwd_verify password (pwd_hash salt password) = true) →
  signup salt name password d = (inr response, d') →
  login name password (signups requests d') = login_ok.
Proof.
  intros Hverify Hsignup.
  assert (∃ r, Sqlite.select_user name d' = inr (Some r) ∧
               Sqlite.password_hash r = pwd_hash salt password) as (r & Hsel & Hhash).
  { destruct d as [table|]; [|done]. rewrite signup_table in Hsignup.
    case_bool_decide as Hname; [done|]. injection Hsignup as _ <-.
    exists {| Sqlite.id := Sqlite.next_id table; Sqlite.username := name;
              Sqlite.password_hash := pwd_hash salt password |}.
    split; [|reflexivity]. simpl. rewrite find_user_app.
    apply find_user_None in Hname. rewrite Hname. simpl.
    by rewrite bool_decide_eq_true_2. }
  assert (Sqlite.select_user name (signups requests d') = inr (Some r)) as Hsel'.
  { clear Hsignup. unfold signups. revert d' Hsel.
    induction requests as [|rq requests IH]; intros d' Hsel; simpl; [done|].
    by apply IH, select_stable. }
  unfold login. rewrite Hsel', Hhash, Hverify. done.
Qed.

Lemma login_after_signups_table requests table name password :
  login name password (signups requests (Some table)) =
  match List.find (λ r, bool_decide (Sqlite.username r = name)) table with
  | Some r =>
      if pwd_verify password (Sqlite.password_hash r) then login_ok
      else login_refused
  | None =>
      match List.find (λ rq, bool_decide (rq.1.2 = name)) requests with
      | None => login_refused
      | Some rq =>
          if pwd_verify password (pwd_hash rq.1.1 rq.2) then login_ok
          else login_refused
      end
  end.
Proof.
  revert table. induction requests as [|[[salt name'] password'] requests IH];
    intros table; simpl.
  { apply login_table. }
  unfold signups in *. simpl. rewrite signup_table.
  case_bool_decide as Hname; simpl; rewrite IH.
  - destruct (List.find _ table) as [r|] eqn:Hfind; [done|].
    apply find_user_None in Hfind.
    rewrite bool_decide_eq_false_2; [done|]. by intros ->.
  - rewrite find_user_app. destruct (List.find _ table) as [r|]; [done|].
    simpl. by case_bool_decide.
Qed.

Lemma serve_signups_locked requests d :
  serve_signups requests {| database := d; write_locked := true |}
  = {| database := d; write_locked := true |}.
Proof. unfold serve_signups. induction requests as [|r requests IH]; done. Qed.

(** The database after a served sequence of signups holds the requests up
    to the first one that repeats a username. *)
Lemma serve_signups_database requests :
  ∀ table seen,
    (∀ x, x ∈ seen ↔ x ∈ Sqlite.username <$> table) →
    database (serve_signups requests
                {| database := Some table; write_locked := false |})
    = signups (distinct_prefix seen requests) (Some table).
Proof.
  induction requests as [|[[salt name'] password'] requests IH];
    intros table seen Hseen; [done|].
  unfold serve_signups, signups in *. simpl.
  unfold serve_signup at 2. simpl. rewrite signup_table.
  rewrite (bool_decide_ext _ _ (Hseen name')).
  case_bool_decide as Hname; simpl.
  - pose proof (serve_signups_locked requests (Some table)) as Hl.
    unfold serve_signups in Hl. by rewrite Hl.
  - rewrite signup_table, bool_decide_eq_false_2 by done. simpl.
    apply IH. intros x. rewrite fmap_app, elem_of_cons, elem_of_app, Hseen.
    simpl. rewrite list_elem_of_singleton. tauto.
Qed.

(** After [init_db] on a fresh database and a sequence of signups served
    with no connection released in between, the signups up to the first
    one that repeats a username are the ones that took effect (that one is
    refused and every later one fails on the lock it leaves).  A login
    succeeds exactly when one of them has that username and the password
    verifies against the hash it stored; otherwise it is refused with
    HTTP 401. *)
Theorem login_after_signups requests name password :
  serve_login name password (serve_signups requests fresh_server) =
  match List.find (λ rq, bool_decide (rq.1.2 = name))
          (distinct_prefix [] requests) with
  | None => login_refused
  | Some rq =>
      if pwd_verify password (pwd_hash rq.1.1 rq.2) then login_ok
      else login_refused
  end.
Proof.
  unfold serve_login, fresh_server. simpl.
  rewrite (serve_signups_database requests [] []) by done.
  apply (login_after_signups_table _ []).
Qed.

End auth.

(** ** Concrete runs of the further properties *)

Lemma response_is_persisted_witness :
  get_predictions "2025-01-01" world0
  = (inr (Pandas.to_dict (Pandas.setitem mentions_frame "player_id"
                            [Num 1; NaN; NaN])),
     (get_predictions "2025-01-01" world0).2) ∧
  ∃ df_pred df',
    files world0 !! predictions_path "2025-01-01" = Some df_pred ∧
    files (get_predictions "2025-01-01" world0).2 !! fotos_path "2025-01-01"
      = Some df' ∧
    Pandas.to_dict (Pandas.setitem mentions_frame "player_id" [Num 1; NaN; NaN])
      = Pandas.to_dict df' ∧
    index df' = index df_pred ∧
    "player_id" ∈ Pandas.labels df' ∧
    (∀ label, label ∈ Pandas.labels df_pred → label ∈ Pandas.labels df').
Proof.
  assert (get_predictions "2025-01-01" world0
          = (inr (Pandas.to_dict (Pandas.setitem mentions_frame "player_id"
                                    [Num 1; NaN; NaN])),
             (get_predictions "2025-01-01" world0).2)) as Hrun.
  { vm_compute. reflexivity. }
  split; [exact Hrun|].
  exact (response_is_persisted "2025-01-01" world0 _ _ Hrun).
Defined.

Lemma missing_column_raises_witness :
  files world_without_names !! predictions_path "2025-01-01" = Some mentions_frame ∧
  files world_without_names !! players_csv_path = Some registry_without_names ∧
  Dict.get (columns registry_without_names) "player_name" = None ∧
  get_predictions "2025-01-01" world_without_names
  = (inl (KeyError (Str "player_name")), world_without_names).
Proof.
  assert (files world_without_names !! predictions_path "2025-01-01"
          = Some mentions_frame) as H1 by (vm_compute; reflexivity).
  assert (files world_without_names !! players_csv_path
          = Some registry_without_names) as H2 by (vm_compute; reflexivity).
  assert (Dict.get (columns registry_without_names) "player_name" = None) as H3
    by (vm_compute; reflexivity).
  split; [exact H1|]. split; [exact H2|]. split; [exact H3|].
  exact (proj1 (missing_column_raises "2025-01-01" world_without_names
                  mentions_frame registry_without_names H1 H2) H3).
Defined.

Lemma null_batch_succeeds_witness :
  files world_null_batch !! predictions_path "2025-01-01" = Some null_mentions_frame ∧
  files world_null_batch !! players_csv_path = Some empty_registry_frame ∧
  Dict.get (columns null_mentions_frame) "player_" = Some [NaN; NaN] ∧
  ∃ w',
    get_predictions "2025-01-01" world_null_batch
      = (inr (Pandas.to_dict (Pandas.setitem null_mentions_frame "player_id"
                                [NaN; NaN])), w') ∧
    scorer_calls w' = scorer_calls world_null_batch ∧
    files w' = <[fotos_path "2025-01-01" :=
                   Pandas.setitem null_mentions_frame "player_id" [NaN; NaN]]>
                 (files world_null_batch).
Proof.
  assert (files world_null_batch !! predictions_path "2025-01-01"
          = Some null_mentions_frame) as H1 by (vm_compute; reflexivity).
  assert (files world_null_batch !! players_csv_path = Some empty_registry_frame)
    as H2 by (vm_compute; reflexivity).
  assert (Dict.get (columns null_mentions_frame) "player_" = Some [NaN; NaN]) as H3
    by (vm_compute; reflexivity).
  split; [exact H1|]. split; [exact H2|]. split; [exact H3|].
  apply (null_batch_succeeds "2025-01-01" world_null_batch null_mentions_frame
           empty_registry_frame [NaN; NaN] H1 H2); [| |exact H3|].
  - exists []. vm_compute. reflexivity.
  - exists []. vm_compute. reflexivity.
  - repeat constructor.
Defined.

Lemma exact_name_resolved_witness :
  Str "Leo Mesi" ∈ Dict.keys sample_registry ∧
  (∀ z, Num z ∉ Dict.keys sample_registry) ∧
  ∃ m v w',
    get_player_id_fuzzy sample_registry (Str "Leo Mesi") world0 = (inr v, w') ∧
    Str m ∈ Dict.keys sample_registry ∧
    Dict.get sample_registry (Str m) = Some v ∧
    (RapidFuzz.score "Leo Mesi" m == 100)%Q.
Proof.
  assert (Str "Leo Mesi" ∈ Dict.keys sample_registry) as H1.
  { vm_compute. right. by left. }
  assert (∀ z, Num z ∉ Dict.keys sample_registry) as H2.
  { intros z Hz. vm_compute in Hz.
    apply elem_of_cons in Hz as [?|Hz]; [done|].
    apply elem_of_cons in Hz as [?|Hz]; [done|]. by apply elem_of_nil in Hz. }
  split; [exact H1|]. split; [exact H2|].
  exact (exact_name_resolved sample_registry "Leo Mesi" world0 H1 H2).
Defined.

Lemma resolved_id_from_last_row_witness :
  get_player_id_fuzzy (Dict.of_pairs repeated_rows) (Str "Messi Lionel") world0
  = (inr (Num 3),
     (get_player_id_fuzzy (Dict.of_pairs repeated_rows) (Str "Messi Lionel")
        world0).2) ∧
  ∃ m l1 l2, repeated_rows = l1 ++ (Str m, Num 3) :: l2 ∧ Str m ∉ l2.*1.
Proof.
  assert (get_player_id_fuzzy (Dict.of_pairs repeated_rows) (Str "Messi Lionel")
            world0
          = (inr (Num 3),
             (get_player_id_fuzzy (Dict.of_pairs repeated_rows)
                (Str "Messi Lionel") world0).2)) as Hrun.
  { vm_compute. reflexivity. }
  split; [exact Hrun|].
  apply (resolved_id_from_last_row repeated_rows (Str "Messi Lionel") world0
           (Num 3) _ Hrun).
  discriminate.
Defined.

Lemma mention_word_order_irrelevant_witness :
  Str.split "Messi Lionel" ≡ₚ Str.split "  Lionel   Messi " ∧
  (get_player_id_fuzzy sample_registry (Str "Messi Lionel") world0).1
  = (get_player_id_fuzzy sample_registry (Str "  Lionel   Messi ") empty_world).1.
Proof.
  assert (Str.split "Messi Lionel" ≡ₚ Str.split "  Lionel   Messi ") as Hp.
  { vm_compute. apply perm_swap. }
  split; [exact Hp|].
  exact (mention_word_order_irrelevant sample_registry _ _ world0 empty_world Hp).
Defined.

Lemma signup_then_login_witness :
  (∀ salt password,
     @pwd_verify toy_context password (@pwd_hash toy_context salt password) = true) ∧
  @signup toy_context "s1" "ana" "pw" (init_db None)
  = (inr [("message", "✅ Usuario creado correctamente")],
     (@signup toy_context "s1" "ana" "pw" (init_db None)).2) ∧
  @login toy_context "ana" "pw"
    (@signups toy_context later_requests
       (@signup toy_context "s1" "ana" "pw" (init_db None)).2)
  = login_ok.
Proof.
  assert (∀ salt password,
     @pwd_verify toy_context password (@pwd_hash toy_context salt password) = true)
    as Hverify.
  { intros salt password. simpl. by apply bool_decide_eq_true_2. }
  assert (@signup toy_context "s1" "ana" "pw" (init_db None)
          = (inr [("message", "✅ Usuario creado correctamente")],
             (@signup toy_context "s1" "ana" "pw" (init_db None)).2)) as Hsignup.
  { vm_compute. reflexivity. }
  split; [exact Hverify|]. split; [exact Hsignup|].
  exact (@signup_then_login toy_context "s1" "ana" "pw" (init_db None) _ _
           later_requests Hverify Hsignup).
Defined.
